(** * sf::Text: layout, geometry cache and position query

    A shallow embedding of [src/SFML/Graphics/Text.cpp].

    The C++ [float] arithmetic is kept abstract behind the class [FloatOps]:
    every operation the source applies to a [float] is a field of the class,
    so the theorems stated for every [FloatOps] hold for whatever
    interpretation the machine gives them (IEEE binary32 included).  The
    instance [QOps] interprets the operations over the rationals and serves
    to run the layout on concrete fonts and strings whose coordinates are
    small integers. *)

From Stdlib Require Import ZArith NArith QArith Qround Qabs Bool List Lia.
Import ListNotations.

Set Implicit Arguments.

(** ** Arithmetic of [float] *)

Class FloatOps : Type := {
  float : Type;
  fadd : float -> float -> float;
  fsub : float -> float -> float;
  fmul : float -> float -> float;
  fdiv : float -> float -> float;
  ffloor : float -> float;             (* std::floor *)
  fceil : float -> float;              (* std::ceil *)
  fround : float -> float;             (* std::round *)
  fabs : float -> float;               (* std::abs *)
  fltb : float -> float -> bool;       (* a < b *)
  feqb : float -> float -> bool;       (* a == b *)
  of_Z : Z -> float;                   (* static_cast<float> and integral literals *)
  fhalf : float;                       (* the literal 0.5f *)
  shear12 : float                      (* sf::degrees(12).asRadians() *)
}.

(** Code points that the layout treats specially. *)
Definition cp_space : N := 32.
Definition cp_tab : N := 9.
Definition cp_newline : N := 10.
Definition cp_return : N := 13.
Definition cp_x : N := 120.

(** Modelled from the spec: the style bits of [Text::Style], declared in
    Text.hpp (bold, italic, underline, strikethrough are independent bits). *)
Definition Regular : N := 0.
Definition Bold : N := 1.
Definition Italic : N := 2.
Definition Underlined : N := 4.
Definition StrikeThrough : N := 8.

(** [m_style & flag] converted to [bool]. *)
Definition hasStyle (style flag : N) : bool := negb (N.land style flag =? 0)%N.

(** Modelled from the spec: [Text::LineAlignment], declared in Text.hpp. *)
Inductive LineAlignment : Type := Left | Center | Right.

(** [sf::Color]: four 8-bit channels. *)
Record Color : Type := mkColor { c_r : N; c_g : N; c_b : N; c_a : N }.

Definition color_eqb (a b : Color) : bool :=
  ((c_r a =? c_r b) && (c_g a =? c_g b) && (c_b a =? c_b b) && (c_a a =? c_a b))%N.

(** [sf::IntRect], the atlas rectangle of a glyph. *)
Record IntRect : Type := mkIntRect { ir_left : Z; ir_top : Z; ir_width : Z; ir_height : Z }.

Section Layout.
Context {FO : FloatOps}.

Definition f0 : float := of_Z 0.

(** [std::min] and [std::max] as the standard defines them. *)
Definition fmin (a b : float) : float := if fltb b a then b else a.
Definition fmax (a b : float) : float := if fltb a b then b else a.

Record Vector2f : Type := mkVec { vx : float; vy : float }.

Record FloatRect : Type := mkRect { r_left : float; r_top : float; r_width : float; r_height : float }.

(** Modelled from the spec: [Rect::getCenter().y], declared in Rect.hpp
    (the vertical center of the bounding box). *)
Definition rectCenterY (r : FloatRect) : float := fadd (r_top r) (fdiv (r_height r) (of_Z 2)).

Record Vertex : Type := mkVertex { position : Vector2f; color : Color; texCoords : Vector2f }.

Record Glyph : Type := mkGlyph { advance : float; bounds : FloatRect; textureRect : IntRect }.

(** The font provider, as [Text.cpp] consumes it.  The arguments follow the
    calls: [getGlyph codePoint characterSize bold outlineThickness],
    [getKerning first second characterSize bold], and
    [getTextureCacheId size] for [getTexture(size).m_cacheId]. *)
Record Font : Type := mkFont {
  getGlyph : N -> N -> bool -> float -> Glyph;
  getKerning : N -> N -> N -> bool -> float;
  getLineSpacing : N -> float;
  getUnderlinePosition : N -> float;
  getUnderlineThickness : N -> float;
  getTextureCacheId : N -> N
}.

(** The members of [sf::Text].  The font the member [m_font] points to is
    passed to each operation.  [rebuilds] is a ghost counter: it counts the
    executions of the rebuild body of [ensureGeometryUpdate]. *)
Record Text : Type := mkText {
  m_string : list N;
  m_characterSize : N;
  m_letterSpacingFactor : float;
  m_lineSpacingFactor : float;
  m_style : N;
  m_fillColor : Color;
  m_outlineColor : Color;
  m_outlineThickness : float;
  m_lineAlignment : LineAlignment;
  m_vertices : list Vertex;
  m_outlineVertices : list Vertex;
  m_bounds : FloatRect;
  m_geometryNeedUpdate : bool;
  m_fontTextureId : N;
  m_lineOffsets : list float;
  rebuilds : nat
}.

(** ** The anonymous namespace: [addLine] and [addGlyphQuad] *)

Definition addLine (vertices : list Vertex) (lineLeft lineRight lineTop : float)
  (col : Color) (offset thickness outlineThickness : float) : list Vertex :=
  let top := ffloor (fadd (fsub (fadd lineTop offset) (fdiv thickness (of_Z 2))) fhalf) in
  let bottom := fadd top (ffloor (fadd thickness fhalf)) in
  let one := mkVec (of_Z 1) (of_Z 1) in
  vertices ++
  [ mkVertex (mkVec (fsub lineLeft outlineThickness) (fsub top outlineThickness)) col one;
    mkVertex (mkVec (fadd lineRight outlineThickness) (fsub top outlineThickness)) col one;
    mkVertex (mkVec (fsub lineLeft outlineThickness) (fadd bottom outlineThickness)) col one;
    mkVertex (mkVec (fsub lineLeft outlineThickness) (fadd bottom outlineThickness)) col one;
    mkVertex (mkVec (fadd lineRight outlineThickness) (fsub top outlineThickness)) col one;
    mkVertex (mkVec (fadd lineRight outlineThickness) (fadd bottom outlineThickness)) col one ].

Definition addGlyphQuad (vertices : list Vertex) (pos : Vector2f) (col : Color)
  (glyph : Glyph) (italicShear : float) : list Vertex :=
  let padding := of_Z 1 in
  let left := fsub (r_left (bounds glyph)) padding in
  let top := fsub (r_top (bounds glyph)) padding in
  let right := fadd (fadd (r_left (bounds glyph)) (r_width (bounds glyph))) padding in
  let bottom := fadd (fadd (r_top (bounds glyph)) (r_height (bounds glyph))) padding in
  let u1 := fsub (of_Z (ir_left (textureRect glyph))) padding in
  let v1 := fsub (of_Z (ir_top (textureRect glyph))) padding in
  let u2 := fadd (of_Z (ir_left (textureRect glyph) + ir_width (textureRect glyph))) padding in
  let v2 := fadd (of_Z (ir_top (textureRect glyph) + ir_height (textureRect glyph))) padding in
  vertices ++
  [ mkVertex (mkVec (fsub (fadd (vx pos) left) (fmul italicShear top)) (fadd (vy pos) top))
             col (mkVec u1 v1);
    mkVertex (mkVec (fsub (fadd (vx pos) right) (fmul italicShear top)) (fadd (vy pos) top))
             col (mkVec u2 v1);
    mkVertex (mkVec (fsub (fadd (vx pos) left) (fmul italicShear bottom)) (fadd (vy pos) bottom))
             col (mkVec u1 v2);
    mkVertex (mkVec (fsub (fadd (vx pos) left) (fmul italicShear bottom)) (fadd (vy pos) bottom))
             col (mkVec u1 v2);
    mkVertex (mkVec (fsub (fadd (vx pos) right) (fmul italicShear top)) (fadd (vy pos) top))
             col (mkVec u2 v1);
    mkVertex (mkVec (fsub (fadd (vx pos) right) (fmul italicShear bottom)) (fadd (vy pos) bottom))
             col (mkVec u2 v2) ].

(** ** [Text::getSpacing] *)

Record Spacing : Type := mkSpacing { whitespaceWidth : float; letterSpacing : float; lineSpacing : float }.

Definition getSpacing (font : Font) (t : Text) : Spacing :=
  let isBold := hasStyle (m_style t) Bold in
  let whitespaceWidth0 := advance (getGlyph font cp_space (m_characterSize t) isBold f0) in
  let letterSpacing := fmul (fdiv whitespaceWidth0 (of_Z 3)) (fsub (m_letterSpacingFactor t) (of_Z 1)) in
  let whitespaceWidth1 := fadd whitespaceWidth0 letterSpacing in
  let lineSpacing := fmul (getLineSpacing font (m_characterSize t)) (m_lineSpacingFactor t) in
  mkSpacing whitespaceWidth1 letterSpacing lineSpacing.

(** ** [Text::updateLineOffsets] *)

(** The locals of the width loop: [position], [prevChar], [maxWidth], and
    the widths pushed so far into [m_lineOffsets]. *)
Record LineState : Type := mkLineState {
  l_x : float; l_y : float; l_prevChar : N; l_maxWidth : float; l_widths : list float
}.

Definition lineStep (font : Font) (t : Text) (st : LineState) (curChar : N) : LineState :=
  let isBold := hasStyle (m_style t) Bold in
  let sp := getSpacing font t in
  let x := fadd (l_x st) (getKerning font (l_prevChar st) curChar (m_characterSize t) isBold) in
  if (curChar =? cp_space)%N then
    mkLineState (fadd x (whitespaceWidth sp)) (l_y st) curChar (l_maxWidth st) (l_widths st)
  else if (curChar =? cp_tab)%N then
    mkLineState (fadd x (fmul (whitespaceWidth sp) (of_Z 4))) (l_y st) curChar
                (l_maxWidth st) (l_widths st)
  else if (curChar =? cp_newline)%N then
    mkLineState f0 (fadd (l_y st) (lineSpacing sp)) curChar
                (if fltb (l_maxWidth st) x then x else l_maxWidth st)
                (l_widths st ++ [x])
  else
    mkLineState
      (fadd x (fadd (advance (getGlyph font curChar (m_characterSize t) isBold f0))
                    (letterSpacing sp)))
      (l_y st) curChar (l_maxWidth st) (l_widths st).

Definition lineInit : LineState := mkLineState f0 f0 0%N f0 [].

Definition lineWalk (font : Font) (t : Text) : LineState :=
  fold_left (lineStep font t) (m_string t) lineInit.

(** The second loop: a width becomes an offset. *)
Definition alignOffset (a : LineAlignment) (maxWidth w : float) : float :=
  fround (match a with
          | Right => fsub maxWidth w
          | Center => fdiv (fsub maxWidth w) (of_Z 2)
          | Left => f0
          end).

(** The widths of the lines, the final line included, as the first loop
    and the [push_back] after it leave them in [m_lineOffsets]. *)
Definition lineWidths (font : Font) (t : Text) : list float :=
  l_widths (lineWalk font t) ++ [l_x (lineWalk font t)].

Definition set_lineOffsets (t : Text) (offs : list float) : Text :=
  mkText (m_string t) (m_characterSize t) (m_letterSpacingFactor t) (m_lineSpacingFactor t)
         (m_style t) (m_fillColor t) (m_outlineColor t) (m_outlineThickness t)
         (m_lineAlignment t) (m_vertices t) (m_outlineVertices t) (m_bounds t)
         (m_geometryNeedUpdate t) (m_fontTextureId t) offs (rebuilds t).

Definition updateLineOffsets (font : Font) (t : Text) : Text :=
  set_lineOffsets t
    (map (alignOffset (m_lineAlignment t) (l_maxWidth (lineWalk font t))) (lineWidths font t)).

(** ** [Text::findCharacterPos] *)

Record PosState : Type := mkPosState { p_x : float; p_y : float; p_prevChar : N }.

Definition posStep (font : Font) (t : Text) (st : PosState) (curChar : N) : PosState :=
  let isBold := hasStyle (m_style t) Bold in
  let sp := getSpacing font t in
  let x := fadd (p_x st) (getKerning font (p_prevChar st) curChar (m_characterSize t) isBold) in
  if (curChar =? cp_space)%N then
    mkPosState (fadd x (whitespaceWidth sp)) (p_y st) curChar
  else if (curChar =? cp_tab)%N then
    mkPosState (fadd x (fmul (whitespaceWidth sp) (of_Z 4))) (p_y st) curChar
  else if (curChar =? cp_newline)%N then
    mkPosState f0 (fadd (p_y st) (lineSpacing sp)) curChar
  else
    mkPosState
      (fadd x (fadd (advance (getGlyph font curChar (m_characterSize t) isBold f0))
                    (letterSpacing sp)))
      (p_y st) curChar.

(** [for (i = 0; i < index; ++i)] reading [m_string[i]]: [n] iterations are
    left and [i] is the loop variable.  Reading past the end of the string
    has no defined result, hence [None]. *)
Fixpoint posLoop (font : Font) (t : Text) (n i : nat) (st : PosState) : option PosState :=
  match n with
  | O => Some st
  | S n' =>
      match nth_error (m_string t) i with
      | None => None
      | Some curChar => posLoop font t n' (S i) (posStep font t st curChar)
      end
  end.

(** The position before the transform of the Transformable base is applied. *)
Definition findCharacterLocalPos (font : Font) (t : Text) (index : nat) : option Vector2f :=
  let index := if (length (m_string t) <? index)%nat then length (m_string t) else index in
  let t1 := updateLineOffsets font t in
  match nth_error (m_lineOffsets t1) 0 with
  | None => None
  | Some x0 =>
      match posLoop font t1 index 0 (mkPosState x0 f0 0%N) with
      | None => None
      | Some st => Some (mkVec (p_x st) (p_y st))
      end
  end.

(** [transformPoint] is [getTransform().transformPoint]. *)
Definition findCharacterPos (font : Font) (transformPoint : Vector2f -> Vector2f)
  (t : Text) (index : nat) : option Vector2f :=
  option_map transformPoint (findCharacterLocalPos font t index).

(** ** [Text::ensureGeometryUpdate] *)

(** The style-derived constants computed ahead of the loop. *)
Definition isBold (t : Text) : bool := hasStyle (m_style t) Bold.
Definition isUnderlined (t : Text) : bool := hasStyle (m_style t) Underlined.
Definition isStrikeThrough (t : Text) : bool := hasStyle (m_style t) StrikeThrough.
Definition italicShear (t : Text) : float :=
  if hasStyle (m_style t) Italic then shear12 else f0.
Definition underlineOffset (font : Font) (t : Text) : float :=
  getUnderlinePosition font (m_characterSize t).
Definition underlineThickness (font : Font) (t : Text) : float :=
  getUnderlineThickness font (m_characterSize t).
Definition strikeThroughOffset (font : Font) (t : Text) : float :=
  rectCenterY (bounds (getGlyph font cp_x (m_characterSize t) (isBold t) f0)).

(** [m_outlineThickness != 0]. *)
Definition hasOutline (t : Text) : bool := negb (feqb (m_outlineThickness t) f0).

(** The locals of the geometry loop together with the two vertex arrays
    it appends to. *)
Record GeomState : Type := mkGeomState {
  g_x : float; g_y : float;
  g_minX : float; g_minY : float; g_maxX : float; g_maxY : float;
  g_prevChar : N; g_line : nat; g_horizontalOffset : float;
  g_vertices : list Vertex; g_outlineVertices : list Vertex
}.

(** One decoration line at a line break or at the end of the text: the fill
    copy and, with an outline, the enlarged outline copy. *)
Definition decorate (t : Text) (on : bool) (left x y offset thickness : float)
  (vo : list Vertex * list Vertex) : list Vertex * list Vertex :=
  if on then
    (addLine (fst vo) left x y (m_fillColor t) offset thickness f0,
     if hasOutline t
     then addLine (snd vo) left x y (m_outlineColor t) offset thickness (m_outlineThickness t)
     else snd vo)
  else vo.

Definition geometryStep (font : Font) (t : Text) (st : GeomState) (curChar : N) : GeomState :=
  let sp := getSpacing font t in
  if (curChar =? cp_return)%N then st
  else
    let x := fadd (g_x st) (getKerning font (g_prevChar st) curChar (m_characterSize t) (isBold t)) in
    let y := g_y st in
    let atBreak := (curChar =? cp_newline)%N && negb (g_prevChar st =? cp_newline)%N in
    let vo1 := decorate t (isUnderlined t && atBreak) (g_horizontalOffset st) x y
                 (underlineOffset font t) (underlineThickness font t)
                 (g_vertices st, g_outlineVertices st) in
    let vo2 := decorate t (isStrikeThrough t && atBreak) (g_horizontalOffset st) x y
                 (strikeThroughOffset font t) (underlineThickness font t) vo1 in
    if ((curChar =? cp_space) || (curChar =? cp_newline) || (curChar =? cp_tab))%N then
      let minX := fmin (g_minX st) x in
      let minY := fmin (g_minY st) y in
      if (curChar =? cp_space)%N then
        let x' := fadd x (whitespaceWidth sp) in
        mkGeomState x' y minX minY (fmax (g_maxX st) x') (fmax (g_maxY st) y)
                    curChar (g_line st) (g_horizontalOffset st) (fst vo2) (snd vo2)
      else if (curChar =? cp_tab)%N then
        let x' := fadd x (fmul (whitespaceWidth sp) (of_Z 4)) in
        mkGeomState x' y minX minY (fmax (g_maxX st) x') (fmax (g_maxY st) y)
                    curChar (g_line st) (g_horizontalOffset st) (fst vo2) (snd vo2)
      else
        let y' := fadd y (lineSpacing sp) in
        let line' := S (g_line st) in
        let horizontalOffset' := nth line' (m_lineOffsets t) f0 in
        mkGeomState horizontalOffset' y' minX minY
                    (fmax (g_maxX st) horizontalOffset') (fmax (g_maxY st) y')
                    curChar line' horizontalOffset' (fst vo2) (snd vo2)
    else
      let outl :=
        if hasOutline t
        then addGlyphQuad (snd vo2) (mkVec x y) (m_outlineColor t)
               (getGlyph font curChar (m_characterSize t) (isBold t) (m_outlineThickness t))
               (italicShear t)
        else snd vo2 in
      let glyph := getGlyph font curChar (m_characterSize t) (isBold t) f0 in
      let fill := addGlyphQuad (fst vo2) (mkVec x y) (m_fillColor t) glyph (italicShear t) in
      let left := r_left (bounds glyph) in
      let top := r_top (bounds glyph) in
      let right := fadd (r_left (bounds glyph)) (r_width (bounds glyph)) in
      let bottom := fadd (r_top (bounds glyph)) (r_height (bounds glyph)) in
      mkGeomState (fadd x (fadd (advance glyph) (letterSpacing sp))) y
                  (fmin (g_minX st) (fsub (fadd x left) (fmul (italicShear t) bottom)))
                  (fmin (g_minY st) (fadd y top))
                  (fmax (g_maxX st) (fsub (fadd x right) (fmul (italicShear t) top)))
                  (fmax (g_maxY st) (fadd y bottom))
                  curChar (g_line st) (g_horizontalOffset st) fill outl.

(** The state at the loop's entry; the vertex arrays have been cleared. *)
Definition geomInit (t : Text) : GeomState :=
  let x := nth 0 (m_lineOffsets t) f0 in
  let size := of_Z (Z.of_N (m_characterSize t)) in
  mkGeomState x size size size f0 f0 0%N 0%nat x [] [].

Definition geometryWalk (font : Font) (t : Text) (str : list N) : GeomState :=
  fold_left (geometryStep font t) str (geomInit t).

(** What follows the loop: outline padding of the bounds, the decoration of
    the last line, the bounding rectangle. *)
Definition geometryFinish (font : Font) (t : Text) (st : GeomState)
  : list Vertex * list Vertex * FloatRect :=
  let outline := fabs (fceil (m_outlineThickness t)) in
  let minX := if hasOutline t then fsub (g_minX st) outline else g_minX st in
  let maxX := if hasOutline t then fadd (g_maxX st) outline else g_maxX st in
  let minY := if hasOutline t then fsub (g_minY st) outline else g_minY st in
  let maxY := if hasOutline t then fadd (g_maxY st) outline else g_maxY st in
  let vo1 := decorate t (isUnderlined t && fltb f0 (g_x st)) (g_horizontalOffset st)
               (g_x st) (g_y st) (underlineOffset font t) (underlineThickness font t)
               (g_vertices st, g_outlineVertices st) in
  let vo2 := decorate t (isStrikeThrough t && fltb f0 (g_x st)) (g_horizontalOffset st)
               (g_x st) (g_y st) (strikeThroughOffset font t) (underlineThickness font t) vo1 in
  (fst vo2, snd vo2, mkRect minX minY (fsub maxX minX) (fsub maxY minY)).

Definition set_cache (t : Text) (vs os : list Vertex) (b : FloatRect) : Text :=
  mkText (m_string t) (m_characterSize t) (m_letterSpacingFactor t) (m_lineSpacingFactor t)
         (m_style t) (m_fillColor t) (m_outlineColor t) (m_outlineThickness t)
         (m_lineAlignment t) vs os b
         (m_geometryNeedUpdate t) (m_fontTextureId t) (m_lineOffsets t) (rebuilds t).

(** The head of the rebuild: the texture id is saved, the flag cleared, the
    previous geometry dropped (and the ghost counter advanced). *)
Definition beginRebuild (font : Font) (t : Text) : Text :=
  mkText (m_string t) (m_characterSize t) (m_letterSpacingFactor t) (m_lineSpacingFactor t)
         (m_style t) (m_fillColor t) (m_outlineColor t) (m_outlineThickness t)
         (m_lineAlignment t) [] [] (mkRect f0 f0 f0 f0)
         false (getTextureCacheId font (m_characterSize t)) (m_lineOffsets t) (S (rebuilds t)).

Definition rebuildGeometry (font : Font) (t : Text) : Text :=
  let t1 := beginRebuild font t in
  match m_string t1 with
  | [] => t1
  | _ :: _ =>
      let t2 := updateLineOffsets font t1 in
      let '(vs, os, b) := geometryFinish font t2 (geometryWalk font t2 (m_string t2)) in
      set_cache t2 vs os b
  end.

Definition ensureGeometryUpdate (font : Font) (t : Text) : Text :=
  if negb (m_geometryNeedUpdate t)
     && (getTextureCacheId font (m_characterSize t) =? m_fontTextureId t)%N
  then t
  else rebuildGeometry font t.

(** ** Accessors that go through the cache *)

Definition getLocalBounds (font : Font) (t : Text) : FloatRect * Text :=
  let t' := ensureGeometryUpdate font t in (m_bounds t', t').

(** [draw] hands the render target the outline array first, when there is an
    outline, then the fill array. *)
Definition draw (font : Font) (t : Text) : list (list Vertex) * Text :=
  let t' := ensureGeometryUpdate font t in
  ((if hasOutline t' then [m_outlineVertices t'] else []) ++ [m_vertices t'], t').

(** ** Setters *)

Definition set_dirty (t : Text) : Text :=
  mkText (m_string t) (m_characterSize t) (m_letterSpacingFactor t) (m_lineSpacingFactor t)
         (m_style t) (m_fillColor t) (m_outlineColor t) (m_outlineThickness t)
         (m_lineAlignment t) (m_vertices t) (m_outlineVertices t) (m_bounds t)
         true (m_fontTextureId t) (m_lineOffsets t) (rebuilds t).

Definition setString (s : list N) (t : Text) : Text :=
  if list_eq_dec N.eq_dec (m_string t) s then t
  else set_dirty
    (mkText s (m_characterSize t) (m_letterSpacingFactor t) (m_lineSpacingFactor t)
         (m_style t) (m_fillColor t) (m_outlineColor t) (m_outlineThickness t)
         (m_lineAlignment t) (m_vertices t) (m_outlineVertices t) (m_bounds t)
         (m_geometryNeedUpdate t) (m_fontTextureId t) (m_lineOffsets t) (rebuilds t)).

(** [Text::setFont].  The member [m_font] is an address and is kept beside
    the record: [cur] is the address [m_font] holds and [new] is [&font].
    The result is the address [m_font] holds afterwards, with the object. *)
Definition setFont (cur new : N) (t : Text) : N * Text :=
  if (cur =? new)%N then (cur, t) else (new, set_dirty t).

Definition setCharacterSize (size : N) (t : Text) : Text :=
  if (m_characterSize t =? size)%N then t
  else set_dirty
    (mkText (m_string t) size (m_letterSpacingFactor t) (m_lineSpacingFactor t)
         (m_style t) (m_fillColor t) (m_outlineColor t) (m_outlineThickness t)
         (m_lineAlignment t) (m_vertices t) (m_outlineVertices t) (m_bounds t)
         (m_geometryNeedUpdate t) (m_fontTextureId t) (m_lineOffsets t) (rebuilds t)).

Definition setStyle (style : N) (t : Text) : Text :=
  if (m_style t =? style)%N then t
  else set_dirty
    (mkText (m_string t) (m_characterSize t) (m_letterSpacingFactor t) (m_lineSpacingFactor t)
         style (m_fillColor t) (m_outlineColor t) (m_outlineThickness t)
         (m_lineAlignment t) (m_vertices t) (m_outlineVertices t) (m_bounds t)
         (m_geometryNeedUpdate t) (m_fontTextureId t) (m_lineOffsets t) (rebuilds t)).

Definition setOutlineThickness (thickness : float) (t : Text) : Text :=
  if feqb thickness (m_outlineThickness t) then t
  else set_dirty
    (mkText (m_string t) (m_characterSize t) (m_letterSpacingFactor t) (m_lineSpacingFactor t)
         (m_style t) (m_fillColor t) (m_outlineColor t) thickness
         (m_lineAlignment t) (m_vertices t) (m_outlineVertices t) (m_bounds t)
         (m_geometryNeedUpdate t) (m_fontTextureId t) (m_lineOffsets t) (rebuilds t)).

(** [m_vertices[i].color = c] for every index. *)
Definition recolor (c : Color) (vs : list Vertex) : list Vertex :=
  map (fun v => mkVertex (position v) c (texCoords v)) vs.

Definition setFillColor (c : Color) (t : Text) : Text :=
  if color_eqb c (m_fillColor t) then t
  else
    mkText (m_string t) (m_characterSize t) (m_letterSpacingFactor t) (m_lineSpacingFactor t)
         (m_style t) c (m_outlineColor t) (m_outlineThickness t) (m_lineAlignment t)
         (if m_geometryNeedUpdate t then m_vertices t else recolor c (m_vertices t))
         (m_outlineVertices t) (m_bounds t)
         (m_geometryNeedUpdate t) (m_fontTextureId t) (m_lineOffsets t) (rebuilds t).

Definition setOutlineColor (c : Color) (t : Text) : Text :=
  if color_eqb c (m_outlineColor t) then t
  else
    mkText (m_string t) (m_characterSize t) (m_letterSpacingFactor t) (m_lineSpacingFactor t)
         (m_style t) (m_fillColor t) c (m_outlineThickness t) (m_lineAlignment t)
         (m_vertices t)
         (if m_geometryNeedUpdate t then m_outlineVertices t
          else recolor c (m_outlineVertices t))
         (m_bounds t)
         (m_geometryNeedUpdate t) (m_fontTextureId t) (m_lineOffsets t) (rebuilds t).

Definition setLetterSpacing (spacingFactor : float) (t : Text) : Text :=
  if feqb (m_letterSpacingFactor t) spacingFactor then t
  else set_dirty
    (mkText (m_string t) (m_characterSize t) spacingFactor (m_lineSpacingFactor t)
         (m_style t) (m_fillColor t) (m_outlineColor t) (m_outlineThickness t)
         (m_lineAlignment t) (m_vertices t) (m_outlineVertices t) (m_bounds t)
         (m_geometryNeedUpdate t) (m_fontTextureId t) (m_lineOffsets t) (rebuilds t)).

Definition setLineSpacing (spacingFactor : float) (t : Text) : Text :=
  if feqb (m_lineSpacingFactor t) spacingFactor then t
  else set_dirty
    (mkText (m_string t) (m_characterSize t) (m_letterSpacingFactor t) spacingFactor
         (m_style t) (m_fillColor t) (m_outlineColor t) (m_outlineThickness t)
         (m_lineAlignment t) (m_vertices t) (m_outlineVertices t) (m_bounds t)
         (m_geometryNeedUpdate t) (m_fontTextureId t) (m_lineOffsets t) (rebuilds t)).

Definition alignment_eqb (a b : LineAlignment) : bool :=
  match a, b with
  | Left, Left | Center, Center | Right, Right => true
  | _, _ => false
  end.

Definition setLineAlignment (a : LineAlignment) (t : Text) : Text :=
  mkText (m_string t) (m_characterSize t) (m_letterSpacingFactor t) (m_lineSpacingFactor t)
         (m_style t) (m_fillColor t) (m_outlineColor t) (m_outlineThickness t)
         a (m_vertices t) (m_outlineVertices t) (m_bounds t)
         (if alignment_eqb (m_lineAlignment t) a then m_geometryNeedUpdate t else true)
         (m_fontTextureId t) (m_lineOffsets t) (rebuilds t).

(** ** Quantities the statements below speak about *)

(** The code points that get a glyph quad: all but space, tab, newline and
    carriage return. *)
Definition isVisible (c : N) : bool :=
  negb ((c =? cp_space) || (c =? cp_tab) || (c =? cp_newline) || (c =? cp_return))%N.

Definition visibleCount (s : list N) : nat := length (filter isVisible s).

Definition newlineCount (s : list N) : nat :=
  length (filter (fun c => (c =? cp_newline)%N) s).

(** The six corners of a decoration rectangle of the fill array, which
    [addLine] emits with an outline thickness of zero. *)
Definition fillRect (left right top bottom : float) (col : Color) : list Vertex :=
  let one := mkVec (of_Z 1) (of_Z 1) in
  [ mkVertex (mkVec (fsub left f0) (fsub top f0)) col one;
    mkVertex (mkVec (fadd right f0) (fsub top f0)) col one;
    mkVertex (mkVec (fsub left f0) (fadd bottom f0)) col one;
    mkVertex (mkVec (fsub left f0) (fadd bottom f0)) col one;
    mkVertex (mkVec (fadd right f0) (fsub top f0)) col one;
    mkVertex (mkVec (fadd right f0) (fadd bottom f0)) col one ].

(** The pixel snapping of a decoration line, in the spec's words:
    [top = floor(y + offset - thickness/2 + 0.5)] and
    [bottom = top + floor(thickness + 0.5)]. *)
Definition snappedTop (y offset thickness : float) : float :=
  ffloor (fadd (fsub (fadd y offset) (fdiv thickness (of_Z 2))) fhalf).
Definition snappedBottom (y offset thickness : float) : float :=
  fadd (snappedTop y offset thickness) (ffloor (fadd thickness fhalf)).

(** The offsets in the spec's words: [maxWidth] is the maximum over the
    widths of all the lines, the final one included, and a line's offset is
    [round((maxWidth - width) * k)] with [k = 0.5] for center and [k = 1]
    for right. *)
Definition specMaxWidth (widths : list float) : float :=
  match widths with
  | [] => f0
  | w :: ws => fold_left fmax ws w
  end.

Definition specOffsets (a : LineAlignment) (widths : list float) : list float :=
  match a with
  | Left => map (fun _ => f0) widths
  | Center => map (fun w => fround (fmul (fsub (specMaxWidth widths) w) fhalf)) widths
  | Right => map (fun w => fround (fmul (fsub (specMaxWidth widths) w) (of_Z 1))) widths
  end.

(** [Text::getGlobalBounds]; [transformRect] is
    [getTransform().transformRect]. *)
Definition getGlobalBounds (font : Font) (transformRect : FloatRect -> FloatRect) (t : Text)
  : FloatRect * Text :=
  (transformRect (fst (getLocalBounds font t)), snd (getLocalBounds font t)).

(** The members the setters write and the layout reads. *)
Definition styleOf (t : Text) :=
  (m_string t, m_characterSize t, m_letterSpacingFactor t, m_lineSpacingFactor t,
   m_style t, m_fillColor t, m_outlineColor t, m_outlineThickness t, m_lineAlignment t).

(** The members the rebuild writes, with the ghost counter. *)
Definition cacheOf (t : Text) :=
  (m_vertices t, m_outlineVertices t, m_bounds t, m_fontTextureId t, rebuilds t).

(** The geometry a rebuild produces. *)
Definition geometryOf (t : Text) := (m_vertices t, m_outlineVertices t, m_bounds t).

(** The line ends that get a decoration line inside the geometry loop: the
    newlines whose previous code point, carriage returns being stepped over,
    is no newline.  [prev] is the previous code point at the start. *)
Fixpoint lineBreaks (prev : N) (s : list N) : nat :=
  match s with
  | [] => 0
  | c :: s' =>
      if (c =? cp_return)%N then lineBreaks prev s'
      else (if (c =? cp_newline)%N && negb (prev =? cp_newline)%N then 1 else 0)
           + lineBreaks c s'
  end.

(** The text with other colors, and the loop state with its two arrays
    repainted. *)
Definition withColors (fill outl : Color) (t : Text) : Text :=
  mkText (m_string t) (m_characterSize t) (m_letterSpacingFactor t) (m_lineSpacingFactor t)
         (m_style t) fill outl (m_outlineThickness t)
         (m_lineAlignment t) (m_vertices t) (m_outlineVertices t) (m_bounds t)
         (m_geometryNeedUpdate t) (m_fontTextureId t) (m_lineOffsets t) (rebuilds t).

Definition recolorState (fill outl : Color) (st : GeomState) : GeomState :=
  mkGeomState (g_x st) (g_y st) (g_minX st) (g_minY st) (g_maxX st) (g_maxY st)
              (g_prevChar st) (g_line st) (g_horizontalOffset st)
              (recolor fill (g_vertices st)) (recolor outl (g_outlineVertices st)).

(** The text with another outline thickness, and what the geometry loop
    holds besides the outline array. *)
Definition withThickness (v : float) (t : Text) : Text :=
  mkText (m_string t) (m_characterSize t) (m_letterSpacingFactor t) (m_lineSpacingFactor t)
         (m_style t) (m_fillColor t) (m_outlineColor t) v
         (m_lineAlignment t) (m_vertices t) (m_outlineVertices t) (m_bounds t)
         (m_geometryNeedUpdate t) (m_fontTextureId t) (m_lineOffsets t) (rebuilds t).

Definition coreOf (st : GeomState) :=
  (g_x st, g_y st, g_minX st, g_minY st, g_maxX st, g_maxY st,
   g_prevChar st, g_line st, g_horizontalOffset st, g_vertices st).

(** The walk of the position query over a whole list of code points. *)
Definition posWalk (font : Font) (t : Text) (s : list N) (ps : PosState) : PosState :=
  fold_left (posStep font t) s ps.

End Layout.

(** ** Exact rational arithmetic as an interpretation of [float] *)

(** [std::round]: to the nearest integer, halves away from zero. *)
Definition Qround_away (a : Q) : Q :=
  if Qle_bool 0 a then inject_Z (Qfloor (a + (1 # 2)))
  else inject_Z (- Qfloor (- a + (1 # 2))).

#[global] Instance QOps : FloatOps := {|
  float := Q;
  fadd a b := Qred (a + b);
  fsub a b := Qred (a - b);
  fmul a b := Qred (a * b);
  fdiv a b := Qred (a / b);
  ffloor a := inject_Z (Qfloor a);
  fceil a := inject_Z (Qceiling a);
  fround := Qround_away;
  fabs a := Qred (Qabs a);
  fltb a b := negb (Qle_bool b a);
  feqb := Qeq_bool;
  of_Z := inject_Z;
  fhalf := 1 # 2;
  shear12 := 20943951 # 100000000
|}.

(** ** A test font and test texts *)

Definition white : Color := mkColor 255 255 255 255.
Definition black : Color := mkColor 0 0 0 255.
Definition red : Color := mkColor 255 0 0 255.

(** Every glyph advances by 10 and has the box (0,0,8,10); no kerning; line
    spacing 24; the underline lies 2 below the base line and is 1 thick. *)
Definition monoGlyph : @Glyph QOps :=
  mkGlyph (10 : Q) (mkRect (0 : Q) (0 : Q) (8 : Q) (10 : Q)) (mkIntRect 0 0 8 10).

Definition monoFont : @Font QOps :=
  mkFont (fun _ _ _ _ => monoGlyph) (fun _ _ _ _ => (0 : Q))
         (fun _ => (24 : Q)) (fun _ => (2 : Q)) (fun _ => (1 : Q)) (fun _ => 1%N).

(** The same font after its atlas was repacked. *)
Definition monoFontRepacked : @Font QOps :=
  mkFont (fun _ _ _ _ => monoGlyph) (fun _ _ _ _ => (0 : Q))
         (fun _ => (24 : Q)) (fun _ => (2 : Q)) (fun _ => (1 : Q)) (fun _ => 2%N).

(** A text of size 20 with natural spacing, white fill, no outline, whose
    geometry was never built. *)
Definition testText (s : list N) (style : N) (a : LineAlignment) : @Text QOps :=
  mkText s 20%N (1 : Q) (1 : Q) style white black (0 : Q) a [] []
         (mkRect (0 : Q) (0 : Q) (0 : Q) (0 : Q)) true 0%N [] 0.

(** The same with an outline of thickness 2. *)
Definition outlinedText (s : list N) (style : N) (a : LineAlignment) : @Text QOps :=
  mkText s 20%N (1 : Q) (1 : Q) style white black (2 : Q) a [] []
         (mkRect (0 : Q) (0 : Q) (0 : Q) (0 : Q)) true 0%N [] 0.

Definition cp_A : N := 65.
Definition cp_B : N := 66.

Definition str_A : list N := [cp_A].
Definition str_A_nl_B : list N := [cp_A; cp_newline; cp_B].
Definition str_AAA_nl_B : list N := [cp_A; cp_A; cp_A; cp_newline; cp_B].
Definition str_A_nl_BBB : list N := [cp_A; cp_newline; cp_B; cp_B; cp_B].
Definition str_A_cr_B : list N := [cp_A; cp_return; cp_B].

(** * Properties *)

Local Open Scope nat_scope.
Unset Implicit Arguments.

Section LayoutFacts.
Context {FO : FloatOps}.
Implicit Types (font : Font) (t : Text) (st : GeomState) (c : N).

(** ** The cache gate *)

Lemma rebuildGeometry_gate font t :
  m_geometryNeedUpdate (rebuildGeometry font t) = false /\
  m_fontTextureId (rebuildGeometry font t) = getTextureCacheId font (m_characterSize t) /\
  m_characterSize (rebuildGeometry font t) = m_characterSize t /\
  rebuilds (rebuildGeometry font t) = S (rebuilds t).
Proof.
  unfold rebuildGeometry.
  destruct (m_string (beginRebuild font t)) as [|c s] eqn:Es.
  - repeat split.
  - destruct (geometryFinish _ _ _) as [[vs os] b]. repeat split.
Qed.

Lemma ensureGeometryUpdate_hit font t :
  m_geometryNeedUpdate t = false ->
  getTextureCacheId font (m_characterSize t) = m_fontTextureId t ->
  ensureGeometryUpdate font t = t.
Proof.
  intros Hd Hid. unfold ensureGeometryUpdate.
  rewrite Hd, Hid, N.eqb_refl. reflexivity.
Qed.

Lemma ensureGeometryUpdate_gate font t :
  m_geometryNeedUpdate (ensureGeometryUpdate font t) = false /\
  m_fontTextureId (ensureGeometryUpdate font t) = getTextureCacheId font (m_characterSize t) /\
  m_characterSize (ensureGeometryUpdate font t) = m_characterSize t.
Proof.
  unfold ensureGeometryUpdate.
  destruct (m_geometryNeedUpdate t) eqn:Hd; cbn [negb andb].
  - destruct (rebuildGeometry_gate font t) as (? & ? & ? & _). auto.
  - destruct (N.eqb_spec (getTextureCacheId font (m_characterSize t)) (m_fontTextureId t)).
    + auto.
    + destruct (rebuildGeometry_gate font t) as (? & ? & ? & _). auto.
Qed.

Lemma rebuildGeometry_geometry font t :
  geometryOf (rebuildGeometry font t) =
  match m_string t with
  | [] => ([], [], mkRect f0 f0 f0 f0)
  | _ :: _ =>
      let t2 := updateLineOffsets font (beginRebuild font t) in
      geometryFinish font t2 (geometryWalk font t2 (m_string t))
  end.
Proof.
  unfold rebuildGeometry. change (m_string (beginRebuild font t)) with (m_string t).
  destruct (m_string t) as [|c s] eqn:E; [reflexivity|].
  cbv zeta.
  change (m_string (updateLineOffsets font (beginRebuild font t))) with (m_string t).
  rewrite E.
  destruct (geometryFinish _ _ _) as [[vs os] b]. reflexivity.
Qed.

(** C2.  A call of the geometry accessor through a font whose texture id for
    the character size is the one the previous call saw, with no setter in
    between, is a cache hit: the text object (fill vertices, outline
    vertices, bounds, rebuild count) is returned as it is, by
    [ensureGeometryUpdate], [getLocalBounds] and [draw] alike.  And the
    rebuild body runs exactly when the dirty flag is set or the cached
    texture id differs from the font's: in that case the result is the
    rebuilt object, its flag clear, its cached id the font's and its
    geometry the one the walk over the string produces (empty for the empty
    string); otherwise the object comes back as it is. *)
Theorem ensureGeometryUpdate_idempotent font1 font2 t :
  getTextureCacheId font2 (m_characterSize t) = getTextureCacheId font1 (m_characterSize t) ->
  let t1 := ensureGeometryUpdate font1 t in
  (ensureGeometryUpdate font2 t1 = t1 /\
   getLocalBounds font2 t1 = (m_bounds t1, t1) /\
   snd (draw font2 t1) = t1 /\
   fst (draw font2 t1) = fst (draw font1 t1)) /\
  (rebuilds t1 = S (rebuilds t) <->
     m_geometryNeedUpdate t = true \/
     getTextureCacheId font1 (m_characterSize t) <> m_fontTextureId t) /\
  (rebuilds t1 = rebuilds t <->
     m_geometryNeedUpdate t = false /\
     getTextureCacheId font1 (m_characterSize t) = m_fontTextureId t) /\
  (m_geometryNeedUpdate t = true \/
   getTextureCacheId font1 (m_characterSize t) <> m_fontTextureId t ->
   t1 = rebuildGeometry font1 t /\
   m_geometryNeedUpdate t1 = false /\
   m_fontTextureId t1 = getTextureCacheId font1 (m_characterSize t) /\
   geometryOf t1 =
     match m_string t with
     | [] => ([], [], mkRect f0 f0 f0 f0)
     | _ :: _ =>
         let t2 := updateLineOffsets font1 (beginRebuild font1 t) in
         geometryFinish font1 t2 (geometryWalk font1 t2 (m_string t))
     end) /\
  (m_geometryNeedUpdate t = false /\
   getTextureCacheId font1 (m_characterSize t) = m_fontTextureId t ->
   t1 = t).
Proof.
  intros Hid t1.
  destruct (ensureGeometryUpdate_gate font1 t) as (Hd & Hv & Hs).
  fold t1 in Hd, Hv, Hs.
  assert (Hhit2 : ensureGeometryUpdate font2 t1 = t1).
  { apply ensureGeometryUpdate_hit; [exact Hd|]. rewrite Hs, Hv. exact Hid. }
  assert (Hhit1 : ensureGeometryUpdate font1 t1 = t1).
  { apply ensureGeometryUpdate_hit; [exact Hd|]. rewrite Hs, Hv. reflexivity. }
  split; [|split; [|split; [|split]]].
  4: { intros Hstale.
       assert (E1 : t1 = rebuildGeometry font1 t).
       { subst t1. unfold ensureGeometryUpdate.
         destruct (m_geometryNeedUpdate t) eqn:Ed; cbn [negb andb]; [reflexivity|].
         destruct (N.eqb_spec (getTextureCacheId font1 (m_characterSize t))
                     (m_fontTextureId t)) as [E|E]; [|reflexivity].
         destruct Hstale as [H|H]; [discriminate H | contradiction]. }
       repeat split; try assumption.
       rewrite E1. apply rebuildGeometry_geometry. }
  4: { intros [Hclean Hsame]. subst t1. apply ensureGeometryUpdate_hit; assumption. }
  - unfold getLocalBounds, draw. rewrite Hhit2, Hhit1. auto.
  - subst t1. unfold ensureGeometryUpdate.
    destruct (m_geometryNeedUpdate t) eqn:Ed; cbn [negb andb].
    + destruct (rebuildGeometry_gate font1 t) as (_ & _ & _ & Hr). split; auto.
    + destruct (N.eqb_spec (getTextureCacheId font1 (m_characterSize t)) (m_fontTextureId t)) as [E|E].
      * split; [intros H; exfalso; lia | intros [H|H]; [discriminate | contradiction]].
      * destruct (rebuildGeometry_gate font1 t) as (_ & _ & _ & Hr). split; auto.
  - subst t1. unfold ensureGeometryUpdate.
    destruct (m_geometryNeedUpdate t) eqn:Ed; cbn [negb andb].
    + destruct (rebuildGeometry_gate font1 t) as (_ & _ & _ & Hr).
      split; [intros H; exfalso; lia | intros [H _]; discriminate].
    + destruct (N.eqb_spec (getTextureCacheId font1 (m_characterSize t)) (m_fontTextureId t)) as [E|E].
      * split; auto.
      * destruct (rebuildGeometry_gate font1 t) as (_ & _ & _ & Hr).
        split; [intros H; exfalso; lia | intros [_ H]; contradiction].
Qed.

(** ** The color fast path *)

Lemma recolor_length (col : Color) (vs : list Vertex) : length (recolor col vs) = length vs.
Proof. apply length_map. Qed.

Lemma recolor_position (col : Color) (vs : list Vertex) :
  map (@position _) (recolor col vs) = map (@position _) vs.
Proof. unfold recolor. rewrite map_map. reflexivity. Qed.

Lemma recolor_texCoords (col : Color) (vs : list Vertex) :
  map (@texCoords _) (recolor col vs) = map (@texCoords _) vs.
Proof. unfold recolor. rewrite map_map. reflexivity. Qed.

Lemma recolor_color (col : Color) (vs : list Vertex) :
  map (@color _) (recolor col vs) = repeat col (length vs).
Proof. induction vs as [|v vs IH]; cbn; [reflexivity | f_equal; exact IH]. Qed.

(** C5.  With the dirty flag clear, [setFillColor] (resp. [setOutlineColor])
    with a color other than the current one gives every vertex of the fill
    (resp. outline) array the new color and changes nothing else: positions,
    texture coordinates, count and order of the vertices, the other array,
    the bounds and the dirty flag stay, and no rebuild has run. *)
Theorem setColor_repaints_in_place t (col : Color) :
  m_geometryNeedUpdate t = false ->
  (color_eqb col (m_fillColor t) = false ->
   let t' := setFillColor col t in
   map (@color _) (m_vertices t') = repeat col (length (m_vertices t)) /\
   map (@position _) (m_vertices t') = map (@position _) (m_vertices t) /\
   map (@texCoords _) (m_vertices t') = map (@texCoords _) (m_vertices t) /\
   length (m_vertices t') = length (m_vertices t) /\
   m_outlineVertices t' = m_outlineVertices t /\
   m_bounds t' = m_bounds t /\
   m_geometryNeedUpdate t' = false /\
   m_fontTextureId t' = m_fontTextureId t /\
   rebuilds t' = rebuilds t /\
   m_fillColor t' = col) /\
  (color_eqb col (m_outlineColor t) = false ->
   let t' := setOutlineColor col t in
   map (@color _) (m_outlineVertices t') = repeat col (length (m_outlineVertices t)) /\
   map (@position _) (m_outlineVertices t') = map (@position _) (m_outlineVertices t) /\
   map (@texCoords _) (m_outlineVertices t') = map (@texCoords _) (m_outlineVertices t) /\
   length (m_outlineVertices t') = length (m_outlineVertices t) /\
   m_vertices t' = m_vertices t /\
   m_bounds t' = m_bounds t /\
   m_geometryNeedUpdate t' = false /\
   m_fontTextureId t' = m_fontTextureId t /\
   rebuilds t' = rebuilds t /\
   m_outlineColor t' = col).
Proof.
  intros Hd. split; intros Hc t'; subst t'.
  - unfold setFillColor. rewrite Hc, Hd. cbn.
    rewrite recolor_color, recolor_position, recolor_texCoords, recolor_length.
    repeat split.
  - unfold setOutlineColor. rewrite Hc, Hd. cbn.
    rewrite recolor_color, recolor_position, recolor_texCoords, recolor_length.
    repeat split.
Qed.

(** ** The position query is total *)

Lemma posLoop_in_range font t (n : nat) : forall (i : nat) (ps : PosState),
  n + i <= length (m_string t) -> exists ps', posLoop font t n i ps = Some ps'.
Proof.
  induction n as [|n IH]; intros i ps Hle; cbn.
  - eexists; reflexivity.
  - destruct (nth_error (m_string t) i) as [c'|] eqn:E.
    + apply IH. lia.
    + apply nth_error_None in E. lia.
Qed.

Lemma updateLineOffsets_length font t :
  length (m_lineOffsets (updateLineOffsets font t)) = S (length (l_widths (lineWalk font t))).
Proof.
  unfold updateLineOffsets, lineWidths. cbn.
  rewrite length_map, length_app. cbn. lia.
Qed.

Lemma updateLineOffsets_string font t :
  m_string (updateLineOffsets font t) = m_string t.
Proof. reflexivity. Qed.

Lemma findCharacterLocalPos_total font t (index : nat) :
  exists p, findCharacterLocalPos font t index = Some p.
Proof.
  unfold findCharacterLocalPos.
  destruct (nth_error (m_lineOffsets (updateLineOffsets font t)) 0) as [x0|] eqn:E0.
  - set (k := if (length (m_string t) <? index)%nat then length (m_string t) else index).
    assert (Hk : k + 0 <= length (m_string (updateLineOffsets font t))).
    { rewrite updateLineOffsets_string. subst k.
      destruct (Nat.ltb_spec (length (m_string t)) index); lia. }
    destruct (posLoop_in_range font (updateLineOffsets font t) k 0
                (mkPosState x0 f0 0%N) Hk) as [ps' Hps].
    rewrite Hps. eexists; reflexivity.
  - apply nth_error_None in E0. rewrite updateLineOffsets_length in E0. lia.
Qed.

(** C9.  An index beyond the length of the string is no error: the query
    returns a point, and it is the point returned for the length itself. *)
Theorem findCharacterPos_clamps font (transformPoint : Vector2f -> Vector2f) t (index : nat) :
  length (m_string t) < index ->
  (exists p, findCharacterPos font transformPoint t index = Some p) /\
  findCharacterPos font transformPoint t index =
  findCharacterPos font transformPoint t (length (m_string t)).
Proof.
  intros Hlt. split.
  - unfold findCharacterPos.
    destruct (findCharacterLocalPos_total font t index) as [p Hp].
    rewrite Hp. eexists; reflexivity.
  - unfold findCharacterPos, findCharacterLocalPos.
    rewrite Nat.ltb_irrefl.
    destruct (Nat.ltb_spec (length (m_string t)) index); [reflexivity | lia].
Qed.

(** ** Vertex counts *)

Lemma addGlyphQuad_length (vs : list Vertex) (p : Vector2f) (col : Color) (g : Glyph)
  (sh : float) : length (addGlyphQuad vs p col g sh) = length vs + 6.
Proof. unfold addGlyphQuad. rewrite length_app. reflexivity. Qed.

Lemma addLine_length (vs : list Vertex) (l r y : float) (col : Color) (o th ot : float) :
  length (addLine vs l r y col o th ot) = length vs + 6.
Proof. unfold addLine. rewrite length_app. reflexivity. Qed.

Lemma geometryStep_return font t st : geometryStep font t st cp_return = st.
Proof. reflexivity. Qed.

Lemma geometryStep_counts font t st c :
  isUnderlined t = false -> isStrikeThrough t = false ->
  length (g_vertices (geometryStep font t st c)) =
    length (g_vertices st) + (if isVisible c then 6 else 0) /\
  length (g_outlineVertices (geometryStep font t st c)) =
    length (g_outlineVertices st) + (if isVisible c && hasOutline t then 6 else 0).
Proof.
  intros Hu Hs. unfold geometryStep, isVisible. rewrite Hu, Hs. cbn [andb decorate fst snd].
  destruct (c =? cp_return)%N; [rewrite !orb_true_r; cbn; lia|].
  destruct (c =? cp_space)%N; [cbn; lia|].
  destruct (c =? cp_newline)%N.
  - destruct (c =? cp_tab)%N; cbn; lia.
  - destruct (c =? cp_tab)%N; [cbn; lia|].
    cbn [orb negb andb g_vertices g_outlineVertices].
    rewrite addGlyphQuad_length. split; [reflexivity|].
    destruct (hasOutline t); [apply addGlyphQuad_length | lia].
Qed.

Lemma geometryWalk_counts font t (s : list N) :
  isUnderlined t = false -> isStrikeThrough t = false ->
  forall st,
  length (g_vertices (fold_left (geometryStep font t) s st)) =
    length (g_vertices st) + 6 * visibleCount s /\
  length (g_outlineVertices (fold_left (geometryStep font t) s st)) =
    length (g_outlineVertices st) + (if hasOutline t then 6 * visibleCount s else 0).
Proof.
  intros Hu Hs. unfold visibleCount.
  induction s as [|c s IH]; intros st; cbn [fold_left filter].
  - cbn. destruct (hasOutline t); lia.
  - destruct (IH (geometryStep font t st c)) as [IHv IHo].
    destruct (geometryStep_counts font t st c Hu Hs) as [Hv Ho].
    rewrite IHv, IHo, Hv, Ho.
    destruct (isVisible c), (hasOutline t); cbn [andb length]; lia.
Qed.

(** C10.  With underline and strikethrough off, a rebuild leaves six fill
    vertices per code point that is not a space, tab, newline or carriage
    return, and as many outline vertices when the outline thickness is
    nonzero, none when it is zero. *)
Theorem rebuild_vertex_counts font t :
  isUnderlined t = false -> isStrikeThrough t = false ->
  length (m_vertices (rebuildGeometry font t)) = 6 * visibleCount (m_string t) /\
  length (m_outlineVertices (rebuildGeometry font t)) =
    if hasOutline t then 6 * visibleCount (m_string t) else 0.
Proof.
  intros Hu Hs. unfold rebuildGeometry.
  change (m_string (beginRebuild font t)) with (m_string t).
  destruct (m_string t) as [|c s] eqn:Es.
  - cbn. destruct (hasOutline t); split; reflexivity.
  - set (t2 := updateLineOffsets font (beginRebuild font t)).
    assert (Hu2 : isUnderlined t2 = false) by exact Hu.
    assert (Hs2 : isStrikeThrough t2 = false) by exact Hs.
    assert (Hstr : m_string t2 = c :: s) by exact Es.
    destruct (geometryWalk_counts font t2 (m_string t2) Hu2 Hs2 (geomInit t2)) as [Hv Ho].
    unfold geometryFinish. fold (geometryWalk font t2 (m_string t2)) in Hv, Ho.
    rewrite Hu2, Hs2. cbn [andb decorate fst snd set_cache m_vertices m_outlineVertices].
    rewrite Hv, Ho, Hstr. cbn [geomInit g_vertices g_outlineVertices length].
    change (hasOutline t2) with (hasOutline t).
    destruct (hasOutline t); split; lia.
Qed.

(** ** Decoration lines *)

Lemma addLine_fill (vs : list Vertex) (l r y : float) (col : Color) (o th : float) :
  addLine vs l r y col o th f0 =
  vs ++ fillRect l r (snappedTop y o th) (snappedBottom y o th) col.
Proof. reflexivity. Qed.

(** The fill array after one step, by the kind of the code point. *)
Lemma geometryStep_fill_newline font t st :
  g_vertices (geometryStep font t st cp_newline) =
  let x := fadd (g_x st)
             (getKerning font (g_prevChar st) cp_newline (m_characterSize t) (isBold t)) in
  let fresh := negb (g_prevChar st =? cp_newline)%N in
  (g_vertices st
   ++ (if isUnderlined t && fresh
       then fillRect (g_horizontalOffset st) x
              (snappedTop (g_y st) (underlineOffset font t) (underlineThickness font t))
              (snappedBottom (g_y st) (underlineOffset font t) (underlineThickness font t))
              (m_fillColor t)
       else []))
   ++ (if isStrikeThrough t && fresh
       then fillRect (g_horizontalOffset st) x
              (snappedTop (g_y st) (strikeThroughOffset font t) (underlineThickness font t))
              (snappedBottom (g_y st) (strikeThroughOffset font t) (underlineThickness font t))
              (m_fillColor t)
       else []).
Proof.
  unfold geometryStep.
  change (cp_newline =? cp_return)%N with false.
  change (cp_newline =? cp_space)%N with false.
  change (cp_newline =? cp_tab)%N with false.
  change (cp_newline =? cp_newline)%N with true.
  cbn [orb andb g_vertices].
  destruct (negb (g_prevChar st =? cp_newline)%N);
    destruct (isUnderlined t), (isStrikeThrough t);
    cbn [andb decorate fst snd]; rewrite ?addLine_fill, ?app_nil_r; reflexivity.
Qed.

Lemma geometryStep_fill_visible font t st c :
  isVisible c = true ->
  g_vertices (geometryStep font t st c) =
  addGlyphQuad (g_vertices st)
    (mkVec (fadd (g_x st) (getKerning font (g_prevChar st) c (m_characterSize t) (isBold t)))
           (g_y st))
    (m_fillColor t) (getGlyph font c (m_characterSize t) (isBold t) f0) (italicShear t).
Proof.
  unfold isVisible, geometryStep. intros Hv.
  destruct (c =? cp_return)%N; [rewrite !orb_true_r in Hv; discriminate|].
  destruct (c =? cp_space)%N; [discriminate|].
  destruct (c =? cp_newline)%N; [rewrite orb_true_r in Hv; discriminate|].
  destruct (c =? cp_tab)%N; [discriminate|].
  cbn [orb andb]. rewrite !andb_false_r. reflexivity.
Qed.

Lemma addGlyphQuad_app (vs : list Vertex) (p : Vector2f) (col : Color) (g : Glyph) (sh : float) :
  addGlyphQuad vs p col g sh = vs ++ addGlyphQuad [] p col g sh.
Proof. reflexivity. Qed.

(** C6.  The string "A\nB" with the underline style on.  The fill array of
    the rebuild is: the quad of A, the underline of the first line (emitted
    when the newline is reached, the code point before it being no newline),
    the quad of B, and, the cursor x after the walk being greater than zero,
    the underline of the last line.  Each underline is [addLine]'s rectangle
    with [top = floor(y + offset - thickness/2 + 0.5)] and
    [bottom = top + floor(thickness + 0.5)].  With the strikethrough style
    on as well, each underline is followed by the strikethrough line of the
    same extent; with it off, the array holds 24 vertices. *)
Theorem underline_two_lines font t :
  m_string t = str_A_nl_B ->
  isUnderlined t = true ->
  let t2 := updateLineOffsets font (beginRebuild font t) in
  let off i := nth i (m_lineOffsets t2) f0 in
  let sp := getSpacing font t in
  let kern a b := getKerning font a b (m_characterSize t) (isBold t) in
  let glyph c := getGlyph font c (m_characterSize t) (isBold t) f0 in
  let y1 := of_Z (Z.of_N (m_characterSize t)) in
  let y2 := fadd y1 (lineSpacing sp) in
  let xA := fadd (off 0) (kern 0%N cp_A) in
  let xBreak := fadd (fadd xA (fadd (advance (glyph cp_A)) (letterSpacing sp)))
                     (kern cp_A cp_newline) in
  let xB := fadd (off 1) (kern cp_newline cp_B) in
  let xEnd := fadd xB (fadd (advance (glyph cp_B)) (letterSpacing sp)) in
  fltb f0 xEnd = true ->
  let uo := underlineOffset font t in
  let so := strikeThroughOffset font t in
  let th := underlineThickness font t in
  let underline l r y :=
    fillRect l r (snappedTop y uo th) (snappedBottom y uo th) (m_fillColor t) in
  let strike l r y :=
    if isStrikeThrough t
    then fillRect l r (snappedTop y so th) (snappedBottom y so th) (m_fillColor t)
    else [] in
  m_vertices (rebuildGeometry font t) =
    addGlyphQuad [] (mkVec xA y1) (m_fillColor t) (glyph cp_A) (italicShear t)
    ++ underline (off 0) xBreak y1
    ++ strike (off 0) xBreak y1
    ++ addGlyphQuad [] (mkVec xB y2) (m_fillColor t) (glyph cp_B) (italicShear t)
    ++ underline (off 1) xEnd y2
    ++ strike (off 1) xEnd y2
  /\ (isStrikeThrough t = false -> length (m_vertices (rebuildGeometry font t)) = 24).
Proof.
  intros Hstr Hu t2 off sp kern glyph y1 y2 xA xBreak xB xEnd Hx uo so th underline strike.
  set (stA := geometryWalk font t2 [cp_A]).
  set (stN := geometryWalk font t2 [cp_A; cp_newline]).
  set (stB := geometryWalk font t2 [cp_A; cp_newline; cp_B]).
  assert (Hv : m_vertices (rebuildGeometry font t) =
               fst (fst (geometryFinish font t2 stB))).
  { unfold rebuildGeometry.
    change (m_string (beginRebuild font t)) with (m_string t). rewrite Hstr.
    unfold str_A_nl_B. cbv zeta.
    change (m_string (updateLineOffsets font (beginRebuild font t))) with (m_string t).
    rewrite Hstr. fold t2. unfold str_A_nl_B. fold stB.
    destruct (geometryFinish font t2 stB) as [[vs os] b]. reflexivity. }
  assert (HA : g_vertices stA =
               addGlyphQuad [] (mkVec xA y1) (m_fillColor t) (glyph cp_A) (italicShear t)).
  { subst stA. unfold geometryWalk. cbn [fold_left].
    rewrite geometryStep_fill_visible by reflexivity. reflexivity. }
  assert (HN : g_vertices stN =
               g_vertices stA ++ underline (off 0) xBreak y1 ++ strike (off 0) xBreak y1).
  { subst stN. unfold geometryWalk. cbn [fold_left].
    rewrite geometryStep_fill_newline.
    change (geometryStep font t2 (geomInit t2) cp_A) with stA.
    change (isUnderlined t2) with (isUnderlined t). rewrite Hu.
    change (isStrikeThrough t2) with (isStrikeThrough t).
    assert (Hp : g_prevChar stA = cp_A) by reflexivity.
    assert (Hh : g_horizontalOffset stA = off 0) by reflexivity.
    assert (Hy : g_y stA = y1) by reflexivity.
    assert (Hxa : fadd (g_x stA)
                    (getKerning font cp_A cp_newline (m_characterSize t2) (isBold t2))
                  = xBreak) by reflexivity.
    cbv zeta. rewrite Hp, Hh, Hy, Hxa.
    change (negb (cp_A =? cp_newline)%N) with true.
    subst strike underline. cbv beta. rewrite !andb_true_r.
    rewrite <- app_assoc. reflexivity. }
  assert (HB : g_vertices stB =
               g_vertices stN
               ++ addGlyphQuad [] (mkVec xB y2) (m_fillColor t) (glyph cp_B) (italicShear t)).
  { subst stB. unfold geometryWalk. cbn [fold_left].
    rewrite geometryStep_fill_visible by reflexivity.
    rewrite addGlyphQuad_app. reflexivity. }
  assert (Hgeo : g_horizontalOffset stB = off 1 /\ g_y stB = y2 /\ g_x stB = xEnd).
  { repeat split; reflexivity. }
  destruct Hgeo as (Hh & Hy & Hxe).
  assert (HF : fst (fst (geometryFinish font t2 stB)) =
               g_vertices stB ++ underline (off 1) xEnd y2 ++ strike (off 1) xEnd y2).
  { unfold geometryFinish. rewrite Hh, Hy, Hxe, Hx.
    change (isUnderlined t2) with (isUnderlined t). rewrite Hu.
    change (isStrikeThrough t2) with (isStrikeThrough t).
    subst strike. cbv beta.
    destruct (isStrikeThrough t); cbn [andb decorate fst snd];
      rewrite ?addLine_fill, ?app_nil_r, <- ?app_assoc; reflexivity. }
  split.
  - rewrite Hv, HF, HB, HN, HA. rewrite <- !app_assoc. reflexivity.
  - intros Hs. rewrite Hv, HF, HB, HN, HA. subst strike. cbv beta. rewrite Hs.
    rewrite !length_app. reflexivity.
Qed.

(** ** The three walks at a newline and at a carriage return *)

Lemma geometryStep_newline_cursor font t st :
  g_x (geometryStep font t st cp_newline) = nth (S (g_line st)) (m_lineOffsets t) f0 /\
  g_horizontalOffset (geometryStep font t st cp_newline) =
    nth (S (g_line st)) (m_lineOffsets t) f0 /\
  g_y (geometryStep font t st cp_newline) = fadd (g_y st) (lineSpacing (getSpacing font t)).
Proof. repeat split. Qed.

Lemma posStep_newline_cursor font t (ps : PosState) :
  p_x (posStep font t ps cp_newline) = f0 /\
  p_y (posStep font t ps cp_newline) = fadd (p_y ps) (lineSpacing (getSpacing font t)).
Proof. repeat split. Qed.

Lemma posStep_return font t (ps : PosState) :
  posStep font t ps cp_return =
  mkPosState
    (fadd (fadd (p_x ps) (getKerning font (p_prevChar ps) cp_return (m_characterSize t) (isBold t)))
          (fadd (advance (getGlyph font cp_return (m_characterSize t) (isBold t) f0))
                (letterSpacing (getSpacing font t))))
    (p_y ps) cp_return.
Proof. reflexivity. Qed.

Lemma lineStep_return font t (ls : LineState) :
  lineStep font t ls cp_return =
  mkLineState
    (fadd (fadd (l_x ls) (getKerning font (l_prevChar ls) cp_return (m_characterSize t) (isBold t)))
          (fadd (advance (getGlyph font cp_return (m_characterSize t) (isBold t) f0))
                (letterSpacing (getSpacing font t))))
    (l_y ls) cp_return (l_maxWidth ls) (l_widths ls).
Proof. reflexivity. Qed.

(** ** The line index stays inside the offset table *)

Lemma newlineCount_cons c (s : list N) :
  newlineCount (c :: s) = (if (c =? cp_newline)%N then 1 else 0) + newlineCount s.
Proof. unfold newlineCount. cbn [filter]. destruct (c =? cp_newline)%N; reflexivity. Qed.

Lemma newlineCount_app (p q : list N) :
  newlineCount (p ++ q) = newlineCount p + newlineCount q.
Proof. unfold newlineCount. rewrite filter_app, length_app. reflexivity. Qed.

Lemma lineStep_widths font t (ls : LineState) c :
  length (l_widths (lineStep font t ls c)) =
  length (l_widths ls) + (if (c =? cp_newline)%N then 1 else 0).
Proof.
  unfold lineStep.
  destruct (N.eqb_spec c cp_space) as [->|_]; [cbn; lia|].
  destruct (N.eqb_spec c cp_tab) as [->|_]; [cbn; lia|].
  destruct (c =? cp_newline)%N; cbn [l_widths]; [rewrite length_app; cbn; lia | lia].
Qed.

Lemma lineWalk_widths font t (s : list N) : forall ls,
  length (l_widths (fold_left (lineStep font t) s ls)) = length (l_widths ls) + newlineCount s.
Proof.
  induction s as [|c s IH]; intros ls; cbn [fold_left].
  - cbn. lia.
  - rewrite IH, lineStep_widths, newlineCount_cons. lia.
Qed.

Lemma lineOffsets_length font t :
  length (m_lineOffsets (updateLineOffsets font t)) = S (newlineCount (m_string t)).
Proof.
  rewrite updateLineOffsets_length. unfold lineWalk. rewrite lineWalk_widths. reflexivity.
Qed.

Lemma geometryStep_line font t st c :
  g_line (geometryStep font t st c) = g_line st + (if (c =? cp_newline)%N then 1 else 0).
Proof.
  unfold geometryStep.
  destruct (N.eqb_spec c cp_return) as [->|_]; [cbn; lia|].
  destruct (N.eqb_spec c cp_space) as [->|_]; [cbn; lia|].
  destruct (N.eqb_spec c cp_newline) as [->|_]; [cbn; lia|].
  destruct (c =? cp_tab)%N; cbn; lia.
Qed.

Lemma geometryWalk_line font t (s : list N) : forall st,
  g_line (fold_left (geometryStep font t) s st) = g_line st + newlineCount s.
Proof.
  induction s as [|c s IH]; intros st; cbn [fold_left].
  - cbn. lia.
  - rewrite IH, geometryStep_line, newlineCount_cons. lia.
Qed.

(** Whenever the geometry loop reads [m_lineOffsets[line]] at a newline, the
    index is inside the table [updateLineOffsets] has just written. *)
Lemma lineOffsets_index_in_range font t (p q : list N) :
  m_string t = p ++ cp_newline :: q ->
  let t2 := updateLineOffsets font t in
  S (g_line (geometryWalk font t2 p)) < length (m_lineOffsets t2).
Proof.
  intros Hs t2. subst t2. rewrite lineOffsets_length, Hs.
  unfold geometryWalk. rewrite geometryWalk_line, newlineCount_app, newlineCount_cons.
  cbn. lia.
Qed.

(** ** A single glyph *)

Lemma updateLineOffsets_left font t (i : nat) :
  m_lineAlignment t = Left ->
  i < length (m_lineOffsets (updateLineOffsets font t)) ->
  nth i (m_lineOffsets (updateLineOffsets font t)) f0 = fround f0.
Proof.
  intros Ha Hi. unfold updateLineOffsets in *. cbn [m_lineOffsets set_lineOffsets] in *.
  rewrite Ha in *. rewrite length_map in Hi.
  rewrite (nth_indep _ f0 (alignOffset Left (l_maxWidth (lineWalk font t)) f0))
    by (rewrite length_map; exact Hi).
  rewrite map_nth. reflexivity.
Qed.

(** The rebuild of a one-glyph string without decoration and outline. *)
Lemma rebuild_single_glyph font t c :
  m_string t = [c] -> isVisible c = true ->
  isUnderlined t = false -> isStrikeThrough t = false -> hasOutline t = false ->
  let t2 := updateLineOffsets font (beginRebuild font t) in
  let glyph := getGlyph font c (m_characterSize t) (isBold t) f0 in
  let x := fadd (nth 0 (m_lineOffsets t2) f0)
                (getKerning font 0%N c (m_characterSize t) (isBold t)) in
  let y := of_Z (Z.of_N (m_characterSize t)) in
  let right := fadd (r_left (bounds glyph)) (r_width (bounds glyph)) in
  let bottom := fadd (r_top (bounds glyph)) (r_height (bounds glyph)) in
  let minX := fmin y (fsub (fadd x (r_left (bounds glyph))) (fmul (italicShear t) bottom)) in
  let minY := fmin y (fadd y (r_top (bounds glyph))) in
  let maxX := fmax f0 (fsub (fadd x right) (fmul (italicShear t) (r_top (bounds glyph)))) in
  let maxY := fmax f0 (fadd y bottom) in
  m_vertices (rebuildGeometry font t) =
    addGlyphQuad [] (mkVec x y) (m_fillColor t) glyph (italicShear t) /\
  m_outlineVertices (rebuildGeometry font t) = [] /\
  m_bounds (rebuildGeometry font t) = mkRect minX minY (fsub maxX minX) (fsub maxY minY).
Proof.
  intros Hstr Hvis Hu Hs Ho. cbv zeta.
  unfold rebuildGeometry.
  change (m_string (beginRebuild font t)) with (m_string t). rewrite Hstr.
  set (t2 := updateLineOffsets font (beginRebuild font t)).
  change (m_string t2) with (m_string t). rewrite Hstr.
  unfold geometryWalk. cbn [fold_left].
  unfold geometryFinish.
  change (isUnderlined t2) with (isUnderlined t).
  change (isStrikeThrough t2) with (isStrikeThrough t).
  change (hasOutline t2) with (hasOutline t).
  rewrite Hu, Hs, Ho. cbn [andb decorate fst snd].
  cbn [set_cache m_vertices m_outlineVertices m_bounds].
  rewrite geometryStep_fill_visible by exact Hvis.
  unfold geometryStep. unfold isVisible in Hvis.
  destruct (c =? cp_return)%N; [rewrite !orb_true_r in Hvis; discriminate|].
  destruct (c =? cp_space)%N; [discriminate|].
  destruct (c =? cp_newline)%N; [rewrite orb_true_r in Hvis; discriminate|].
  destruct (c =? cp_tab)%N; [discriminate|].
  change (isUnderlined t2) with (isUnderlined t).
  change (isStrikeThrough t2) with (isStrikeThrough t).
  change (hasOutline t2) with (hasOutline t).
  rewrite Hu, Hs, Ho. cbn [orb andb decorate fst snd].
  repeat split.
Qed.

End LayoutFacts.

(** * Runs in exact arithmetic *)

Section ExactRuns.
Local Open Scope Q_scope.

(** C8.  [getSpacing] returns [(a / 3) * (letterSpacingFactor - 1)] as the
    letter spacing, [a + letterSpacing] as the whitespace width and
    [fontLineSpacing(size) * lineSpacingFactor] as the line spacing, [a]
    being the advance of the space glyph at the character size and
    boldness; this for every interpretation of the float operations.  In
    exact arithmetic a letter-spacing factor of 1 gives a letter spacing of
    0 and a whitespace width equal to [a]. *)
Theorem getSpacing_formulas :
  (forall (FO : FloatOps) (font : Font) (t : Text),
     let a := advance (getGlyph font cp_space (m_characterSize t) (isBold t) f0) in
     letterSpacing (getSpacing font t) =
       fmul (fdiv a (of_Z 3)) (fsub (m_letterSpacingFactor t) (of_Z 1)) /\
     whitespaceWidth (getSpacing font t) = fadd a (letterSpacing (getSpacing font t)) /\
     lineSpacing (getSpacing font t) =
       fmul (getLineSpacing font (m_characterSize t)) (m_lineSpacingFactor t)) /\
  (forall (font : @Font QOps) (t : @Text QOps),
     m_letterSpacingFactor t == 1 ->
     letterSpacing (getSpacing font t) == 0 /\
     whitespaceWidth (getSpacing font t) ==
       advance (getGlyph font cp_space (m_characterSize t) (isBold t) f0)).
Proof.
  split.
  - intros FO font t a. repeat split.
  - intros font t H1.
    assert (Hl : letterSpacing (getSpacing font t) == 0).
    { unfold getSpacing. cbn [letterSpacing fmul fdiv fsub of_Z QOps].
      rewrite !Qred_correct, H1. unfold inject_Z. field. }
    split; [exact Hl|].
    change (whitespaceWidth (getSpacing font t))
      with (Qred (advance (getGlyph font cp_space (m_characterSize t) (isBold t) f0)
                  + letterSpacing (getSpacing font t))).
    rewrite Qred_correct, Hl. ring.
Qed.

(** C7, as the code has it.  The string "A", character size 20, left
    alignment, no outline, no italic, underline or strikethrough; a font
    whose glyph A has advance 10 and bounds (0,0,8,10) and no kerning before
    A.  The rebuild emits one quad, six fill vertices at the corners of the
    box (0,0,8,10) padded by 1 and moved down to the base line y = 20, and
    the local bounds are the unpadded box at the base line: (0,20,8,10). *)
Theorem single_glyph_scenario (font : @Font QOps) (t : @Text QOps) :
  m_string t = str_A ->
  m_characterSize t = 20%N ->
  m_lineAlignment t = Left ->
  hasOutline t = false ->
  hasStyle (m_style t) Italic = false ->
  isUnderlined t = false ->
  isStrikeThrough t = false ->
  advance (getGlyph font cp_A 20%N (isBold t) f0) = 10 ->
  bounds (getGlyph font cp_A 20%N (isBold t) f0) = mkRect (0 : Q) (0 : Q) (8 : Q) (10 : Q) ->
  getKerning font 0%N cp_A 20%N (isBold t) = 0 ->
  let t' := rebuildGeometry font t in
  map (@position _) (m_vertices t') =
    [ mkVec (-1 : Q) (19 : Q); mkVec (9 : Q) (19 : Q); mkVec (-1 : Q) (31 : Q);
      mkVec (-1 : Q) (31 : Q); mkVec (9 : Q) (19 : Q); mkVec (9 : Q) (31 : Q) ] /\
  length (m_vertices t') = 6%nat /\
  m_outlineVertices t' = [] /\
  m_bounds t' = mkRect (0 : Q) (20 : Q) (8 : Q) (10 : Q).
Proof.
  intros Hstr Hsize Hal Ho Hit Hu Hs Hadv Hb Hk t'. subst t'.
  destruct (rebuild_single_glyph font t cp_A Hstr eq_refl Hu Hs Ho) as (Hv & Hov & Hbd).
  rewrite Hv, Hov, Hbd. clear Hv Hov Hbd.
  rewrite updateLineOffsets_left
    by (try exact Hal; rewrite updateLineOffsets_length; apply Nat.lt_0_succ).
  unfold italicShear. rewrite Hit, Hsize, Hb, Hk.
  unfold addGlyphQuad. rewrite Hb.
  repeat split.
Qed.

(** C7, as the claim has it, fails on the test font: the bounds of "A" are
    (0,20,8,10), whose top is 21 away from the claimed -1, and not
    (-1,-1,10,12). *)
Lemma single_glyph_bounds_counterexample :
  let t' := rebuildGeometry monoFont (testText str_A Regular Left) in
  length (m_vertices t') = 6%nat /\
  m_bounds t' = mkRect (0 : Q) (20 : Q) (8 : Q) (10 : Q) /\
  m_bounds t' <> mkRect (-1 : Q) (-1 : Q) (10 : Q) (12 : Q) /\
  r_top (m_bounds t') - (-1) == 21.
Proof.
  cbv zeta. repeat split.
  intros H. apply (f_equal (@r_top QOps)) in H. vm_compute in H. discriminate H.
Qed.

(** C1 on "AAA\nB", right aligned.  The line-offset table is [0; 20].  The
    geometry pass enters the second line at x = 20, the table's entry, and
    puts the quad of B there; the position query returns x = 0 for the same
    index 4. *)
Lemma findCharacterPos_newline_resets_to_zero :
  let t := testText str_AAA_nl_B Regular Right in
  let t2 := updateLineOffsets monoFont t in
  m_lineOffsets t2 = [0; 20] /\
  g_x (geometryWalk monoFont t2 (firstn 4 (m_string t))) = 20 /\
  nth_error (map (@position _) (m_vertices (rebuildGeometry monoFont t))) 18 =
    Some (mkVec (19 : Q) (43 : Q)) /\
  findCharacterLocalPos monoFont t 4 = Some (mkVec (0 : Q) (24 : Q)) /\
  findCharacterPos monoFont (fun p => p) t 4 = Some (mkVec (0 : Q) (24 : Q)).
Proof. cbv zeta. repeat split. Qed.

(** C3 on "A\nBBB".  The widths are [10; 30], and so the maximum over all
    lines is 30; [updateLineOffsets] takes the maximum over the lines closed
    by a newline only, 10, and the last line gets a negative offset. *)
Lemma updateLineOffsets_max_skips_last_line :
  let widths := lineWidths monoFont (testText str_A_nl_BBB Regular Right) in
  widths = [10; 30] /\
  specMaxWidth widths = 30 /\
  l_maxWidth (lineWalk monoFont (testText str_A_nl_BBB Regular Right)) = 10 /\
  m_lineOffsets (updateLineOffsets monoFont (testText str_A_nl_BBB Regular Right)) = [0; -20] /\
  specOffsets Right widths = [20; 0] /\
  m_lineOffsets (updateLineOffsets monoFont (testText str_A_nl_BBB Regular Center)) = [0; -10] /\
  specOffsets Center widths = [10; 0] /\
  m_lineOffsets (updateLineOffsets monoFont (testText str_A Regular Right)) = [-10] /\
  specOffsets Right (lineWidths monoFont (testText str_A Regular Right)) = [0].
Proof. cbv zeta. repeat split. Qed.

(** C4 on "A\rB".  The geometry pass steps over the carriage return: the
    cursor stays at x = 10 and B's quad starts there.  The line-metrics pass
    and the position query take it for a glyph: the line is 30 wide, not 20,
    the position after "A\r" is x = 20, and the carriage return becomes the
    previous code point of the kerning lookup. *)
Lemma carriage_return_not_transparent :
  let t := testText str_A_cr_B Regular Left in
  let t2 := updateLineOffsets monoFont t in
  g_x (geometryWalk monoFont t2 [cp_A]) = 10 /\
  g_x (geometryWalk monoFont t2 [cp_A; cp_return]) = 10 /\
  g_prevChar (geometryWalk monoFont t2 [cp_A; cp_return]) = cp_A /\
  length (m_vertices (rebuildGeometry monoFont t)) = 12%nat /\
  lineWidths monoFont t = [30] /\
  lineWidths monoFont (testText [cp_A; cp_B] Regular Left) = [20] /\
  l_prevChar (fold_left (lineStep monoFont t) [cp_A; cp_return] lineInit) = cp_return /\
  findCharacterLocalPos monoFont t 1 = Some (mkVec (10 : Q) (0 : Q)) /\
  findCharacterLocalPos monoFont t 2 = Some (mkVec (20 : Q) (0 : Q)) /\
  posLoop monoFont t2 2 0 (mkPosState (0 : Q) (0 : Q) 0%N) =
    Some (mkPosState (20 : Q) (0 : Q) cp_return).
Proof. cbv zeta. repeat split. Qed.

(** ** The theorems at concrete inputs *)

Lemma ensureGeometryUpdate_idempotent_witness :
  let t := testText str_A_nl_B Underlined Center in
  getTextureCacheId monoFont (m_characterSize t) = getTextureCacheId monoFont (m_characterSize t) /\
  m_geometryNeedUpdate t = true /\
  ensureGeometryUpdate monoFont (ensureGeometryUpdate monoFont t) =
  ensureGeometryUpdate monoFont t /\
  ensureGeometryUpdate monoFont t = rebuildGeometry monoFont t.
Proof.
  cbv zeta. split; [reflexivity|]. split; [reflexivity|]. split.
  - exact (proj1 (proj1 (@ensureGeometryUpdate_idempotent QOps monoFont monoFont
                           (testText str_A_nl_B Underlined Center) eq_refl))).
  - exact (proj1 (proj1 (proj2 (proj2 (proj2
             (@ensureGeometryUpdate_idempotent QOps monoFont monoFont
                (testText str_A_nl_B Underlined Center) eq_refl))))
             (or_introl eq_refl))).
Defined.

Lemma setColor_repaints_in_place_witness :
  let t := ensureGeometryUpdate monoFont (testText str_A Regular Left) in
  m_geometryNeedUpdate t = false /\
  color_eqb red (m_fillColor t) = false /\
  map (@color _) (m_vertices (setFillColor red t)) = repeat red (length (m_vertices t)).
Proof.
  cbv zeta. split; [reflexivity|]. split; [reflexivity|].
  exact (proj1 (proj1 (@setColor_repaints_in_place QOps
                         (ensureGeometryUpdate monoFont (testText str_A Regular Left))
                         red eq_refl) eq_refl)).
Defined.

Lemma underline_two_lines_witness :
  let t := testText str_A_nl_B Underlined Left in
  m_string t = str_A_nl_B /\
  isUnderlined t = true /\
  isStrikeThrough t = false /\
  length (m_vertices (rebuildGeometry monoFont t)) = 24%nat.
Proof.
  cbv zeta. split; [reflexivity|]. split; [reflexivity|]. split; [reflexivity|].
  exact (proj2 (@underline_two_lines QOps monoFont (testText str_A_nl_B Underlined Left)
                  eq_refl eq_refl eq_refl) eq_refl).
Defined.

Lemma single_glyph_scenario_witness :
  m_bounds (rebuildGeometry monoFont (testText str_A Regular Left)) =
  mkRect (0 : Q) (20 : Q) (8 : Q) (10 : Q).
Proof.
  exact (proj2 (proj2 (proj2 (single_glyph_scenario monoFont (testText str_A Regular Left)
           eq_refl eq_refl eq_refl eq_refl eq_refl eq_refl eq_refl eq_refl eq_refl eq_refl)))).
Defined.

Lemma getSpacing_formulas_witness :
  m_letterSpacingFactor (testText str_A Regular Left) == 1 /\
  letterSpacing (getSpacing monoFont (testText str_A Regular Left)) == 0.
Proof.
  split; [reflexivity|].
  exact (proj1 (proj2 getSpacing_formulas monoFont (testText str_A Regular Left)
                  (Qeq_refl 1))).
Defined.

Lemma findCharacterPos_clamps_witness :
  (length (m_string (testText str_A_nl_B Regular Right)) < 7)%nat /\
  findCharacterPos monoFont (fun p => p) (testText str_A_nl_B Regular Right) 7 =
  findCharacterPos monoFont (fun p => p) (testText str_A_nl_B Regular Right) 3.
Proof.
  split; [vm_compute; lia|].
  refine (proj2 (@findCharacterPos_clamps QOps monoFont (fun p => p)
                   (testText str_A_nl_B Regular Right) 7 _)).
  vm_compute; lia.
Defined.

Lemma rebuild_vertex_counts_witness :
  isUnderlined (testText str_AAA_nl_B Regular Left) = false /\
  isStrikeThrough (testText str_AAA_nl_B Regular Left) = false /\
  length (m_vertices (rebuildGeometry monoFont (testText str_AAA_nl_B Regular Left))) =
    (6 * visibleCount str_AAA_nl_B)%nat.
Proof.
  split; [reflexivity|]. split; [reflexivity|].
  exact (proj1 (@rebuild_vertex_counts QOps monoFont (testText str_AAA_nl_B Regular Left)
                  eq_refl eq_refl)).
Defined.

End ExactRuns.

(** * Further properties of the setters, the cache and the three walks *)

Section SetterFacts.
Context {FO : FloatOps}.
Implicit Types (font : Font) (t : Text).

Lemma color_eqb_eq (a b : Color) : color_eqb a b = true <-> a = b.
Proof.
  unfold color_eqb. destruct a as [r g b0 a0], b as [r' g' b' a']. cbn.
  rewrite !andb_true_iff, !N.eqb_eq. split.
  - intros [[[-> ->] ->] ->]. reflexivity.
  - intros H. injection H as -> -> -> ->. auto.
Qed.

Lemma alignment_eqb_eq (a b : LineAlignment) : alignment_eqb a b = true <-> a = b.
Proof. destruct a, b; cbn; split; intros H; try reflexivity; discriminate H. Qed.

Lemma ensureGeometryUpdate_dirty font t :
  m_geometryNeedUpdate t = true -> ensureGeometryUpdate font t = rebuildGeometry font t.
Proof. intros Hd. unfold ensureGeometryUpdate. rewrite Hd. reflexivity. Qed.

(** X1.  A setter of a layout member called with a value other than the
    current one stores the value, raises the dirty flag and leaves the
    cached geometry as it is; the next access through the cache gate then
    returns the rebuilt object (and the rebuild has run once more).  This
    for [setString], [setCharacterSize], [setStyle], [setLineAlignment] and,
    their comparison being the float one, [setLetterSpacing],
    [setLineSpacing] and [setOutlineThickness]. *)
Theorem setters_invalidate font t :
  (forall s, s <> m_string t ->
     let t' := setString s t in
     m_string t' = s /\ m_geometryNeedUpdate t' = true /\ cacheOf t' = cacheOf t /\
     ensureGeometryUpdate font t' = rebuildGeometry font t' /\
     rebuilds (ensureGeometryUpdate font t') = S (rebuilds t)) /\
  (forall size, size <> m_characterSize t ->
     let t' := setCharacterSize size t in
     m_characterSize t' = size /\ m_geometryNeedUpdate t' = true /\ cacheOf t' = cacheOf t /\
     ensureGeometryUpdate font t' = rebuildGeometry font t' /\
     rebuilds (ensureGeometryUpdate font t') = S (rebuilds t)) /\
  (forall style, style <> m_style t ->
     let t' := setStyle style t in
     m_style t' = style /\ m_geometryNeedUpdate t' = true /\ cacheOf t' = cacheOf t /\
     ensureGeometryUpdate font t' = rebuildGeometry font t' /\
     rebuilds (ensureGeometryUpdate font t') = S (rebuilds t)) /\
  (forall a, a <> m_lineAlignment t ->
     let t' := setLineAlignment a t in
     m_lineAlignment t' = a /\ m_geometryNeedUpdate t' = true /\ cacheOf t' = cacheOf t /\
     ensureGeometryUpdate font t' = rebuildGeometry font t' /\
     rebuilds (ensureGeometryUpdate font t') = S (rebuilds t)) /\
  (forall v, feqb (m_letterSpacingFactor t) v = false ->
     let t' := setLetterSpacing v t in
     m_letterSpacingFactor t' = v /\ m_geometryNeedUpdate t' = true /\
     cacheOf t' = cacheOf t /\
     ensureGeometryUpdate font t' = rebuildGeometry font t' /\
     rebuilds (ensureGeometryUpdate font t') = S (rebuilds t)) /\
  (forall v, feqb (m_lineSpacingFactor t) v = false ->
     let t' := setLineSpacing v t in
     m_lineSpacingFactor t' = v /\ m_geometryNeedUpdate t' = true /\
     cacheOf t' = cacheOf t /\
     ensureGeometryUpdate font t' = rebuildGeometry font t' /\
     rebuilds (ensureGeometryUpdate font t') = S (rebuilds t)) /\
  (forall v, feqb v (m_outlineThickness t) = false ->
     let t' := setOutlineThickness v t in
     m_outlineThickness t' = v /\ m_geometryNeedUpdate t' = true /\
     cacheOf t' = cacheOf t /\
     ensureGeometryUpdate font t' = rebuildGeometry font t' /\
     rebuilds (ensureGeometryUpdate font t') = S (rebuilds t)).
Proof.
  assert (Hreb : forall t', m_geometryNeedUpdate t' = true -> rebuilds t' = rebuilds t ->
                 ensureGeometryUpdate font t' = rebuildGeometry font t' /\
                 rebuilds (ensureGeometryUpdate font t') = S (rebuilds t)).
  { intros t' Hd Hr. rewrite ensureGeometryUpdate_dirty by exact Hd.
    destruct (rebuildGeometry_gate font t') as (_ & _ & _ & H). rewrite H, Hr. auto. }
  repeat match goal with |- _ /\ _ => split end; intros v Hv t'; subst t'.
  - unfold setString. destruct (list_eq_dec N.eq_dec (m_string t) v); [congruence|].
    repeat split; apply Hreb; reflexivity.
  - unfold setCharacterSize. destruct (N.eqb_spec (m_characterSize t) v); [congruence|].
    repeat split; apply Hreb; reflexivity.
  - unfold setStyle. destruct (N.eqb_spec (m_style t) v); [congruence|].
    repeat split; apply Hreb; reflexivity.
  - assert (E : alignment_eqb (m_lineAlignment t) v = false).
    { destruct (alignment_eqb (m_lineAlignment t) v) eqn:E; [|reflexivity].
      apply alignment_eqb_eq in E. congruence. }
    unfold setLineAlignment. rewrite E. repeat split; apply Hreb; reflexivity.
  - unfold setLetterSpacing. rewrite Hv. repeat split; apply Hreb; reflexivity.
  - unfold setLineSpacing. rewrite Hv. repeat split; apply Hreb; reflexivity.
  - unfold setOutlineThickness. rewrite Hv. repeat split; apply Hreb; reflexivity.
Qed.

(** X2.  What a setter with exact comparison stores is what its getter
    returns, and a setter called with the current value (for the float
    setters: with a value that compares equal to it) returns the object as
    it is, a valid cache staying valid.  [setFont] likewise: [m_font] holds
    the given address afterwards, and the address it already holds changes
    nothing. *)
Theorem setters_store_value t :
  (forall s, m_string (setString s t) = s) /\
  (forall size, m_characterSize (setCharacterSize size t) = size) /\
  (forall style, m_style (setStyle style t) = style) /\
  (forall a, m_lineAlignment (setLineAlignment a t) = a) /\
  (forall col, m_fillColor (setFillColor col t) = col) /\
  (forall col, m_outlineColor (setOutlineColor col t) = col) /\
  setString (m_string t) t = t /\
  setCharacterSize (m_characterSize t) t = t /\
  setStyle (m_style t) t = t /\
  setLineAlignment (m_lineAlignment t) t = t /\
  setFillColor (m_fillColor t) t = t /\
  setOutlineColor (m_outlineColor t) t = t /\
  (forall v, feqb (m_letterSpacingFactor t) v = true -> setLetterSpacing v t = t) /\
  (forall v, feqb (m_lineSpacingFactor t) v = true -> setLineSpacing v t = t) /\
  (forall v, feqb v (m_outlineThickness t) = true -> setOutlineThickness v t = t) /\
  (forall cur new, fst (setFont cur new t) = new) /\
  (forall cur, setFont cur cur t = (cur, t)).
Proof.
  repeat match goal with |- _ /\ _ => split end.
  16: { intros cur new. unfold setFont.
        destruct (N.eqb_spec cur new); [assumption | reflexivity]. }
  16: { intros cur. unfold setFont. rewrite N.eqb_refl. reflexivity. }
  - intros s. unfold setString.
    destruct (list_eq_dec N.eq_dec (m_string t) s); [assumption | reflexivity].
  - intros size. unfold setCharacterSize.
    destruct (N.eqb_spec (m_characterSize t) size); [assumption | reflexivity].
  - intros style. unfold setStyle.
    destruct (N.eqb_spec (m_style t) style); [assumption | reflexivity].
  - reflexivity.
  - intros col. unfold setFillColor.
    destruct (color_eqb col (m_fillColor t)) eqn:E; [|reflexivity].
    apply color_eqb_eq in E. congruence.
  - intros col. unfold setOutlineColor.
    destruct (color_eqb col (m_outlineColor t)) eqn:E; [|reflexivity].
    apply color_eqb_eq in E. congruence.
  - unfold setString.
    destruct (list_eq_dec N.eq_dec (m_string t) (m_string t)); [reflexivity | congruence].
  - unfold setCharacterSize. rewrite N.eqb_refl. reflexivity.
  - unfold setStyle. rewrite N.eqb_refl. reflexivity.
  - unfold setLineAlignment.
    replace (alignment_eqb (m_lineAlignment t) (m_lineAlignment t)) with true
      by (symmetry; apply alignment_eqb_eq; reflexivity).
    destruct t; reflexivity.
  - unfold setFillColor.
    replace (color_eqb (m_fillColor t) (m_fillColor t)) with true
      by (symmetry; apply color_eqb_eq; reflexivity).
    reflexivity.
  - unfold setOutlineColor.
    replace (color_eqb (m_outlineColor t) (m_outlineColor t)) with true
      by (symmetry; apply color_eqb_eq; reflexivity).
    reflexivity.
  - intros v Hv. unfold setLetterSpacing. rewrite Hv. reflexivity.
  - intros v Hv. unfold setLineSpacing. rewrite Hv. reflexivity.
  - intros v Hv. unfold setOutlineThickness. rewrite Hv. reflexivity.
Qed.

(** X3.  No setter clears the dirty flag, and none touches the bounds, the
    cached texture id or the rebuild count: only the rebuild itself marks
    the geometry as up to date.  This for the ten setters of the class,
    [setFont] included. *)
Theorem setters_never_validate t :
  let kept t' :=
    (m_geometryNeedUpdate t = true -> m_geometryNeedUpdate t' = true) /\
    m_bounds t' = m_bounds t /\ m_fontTextureId t' = m_fontTextureId t /\
    rebuilds t' = rebuilds t in
  (forall s, kept (setString s t)) /\
  (forall size, kept (setCharacterSize size t)) /\
  (forall v, kept (setLetterSpacing v t)) /\
  (forall v, kept (setLineSpacing v t)) /\
  (forall style, kept (setStyle style t)) /\
  (forall col, kept (setFillColor col t)) /\
  (forall col, kept (setOutlineColor col t)) /\
  (forall v, kept (setOutlineThickness v t)) /\
  (forall a, kept (setLineAlignment a t)) /\
  (forall cur new, kept (snd (setFont cur new t))).
Proof.
  cbv zeta beta.
  repeat match goal with |- _ /\ _ => split end; intros v.
  10: { intros new. unfold setFont. destruct (v =? new)%N; repeat split; auto. }
  - unfold setString. destruct (list_eq_dec N.eq_dec (m_string t) v); repeat split; auto.
  - unfold setCharacterSize. destruct (m_characterSize t =? v)%N; repeat split; auto.
  - unfold setLetterSpacing. destruct (feqb (m_letterSpacingFactor t) v); repeat split; auto.
  - unfold setLineSpacing. destruct (feqb (m_lineSpacingFactor t) v); repeat split; auto.
  - unfold setStyle. destruct (m_style t =? v)%N; repeat split; auto.
  - unfold setFillColor. destruct (color_eqb v (m_fillColor t)); repeat split; auto.
  - unfold setOutlineColor. destruct (color_eqb v (m_outlineColor t)); repeat split; auto.
  - unfold setOutlineThickness. destruct (feqb v (m_outlineThickness t)); repeat split; auto.
  - unfold setLineAlignment. cbn.
    destruct (alignment_eqb (m_lineAlignment t) v); repeat split; auto.
Qed.

End SetterFacts.

Section RebuildFacts.
Context {FO : FloatOps}.
Implicit Types (font : Font) (t : Text) (st : GeomState) (c : N).

(** ** The rebuild reads the style and nothing else *)

Lemma rebuildGeometry_style font t : styleOf (rebuildGeometry font t) = styleOf t.
Proof.
  unfold rebuildGeometry. change (m_string (beginRebuild font t)) with (m_string t).
  destruct (m_string t); reflexivity.
Qed.

Lemma ensureGeometryUpdate_style font t : styleOf (ensureGeometryUpdate font t) = styleOf t.
Proof.
  unfold ensureGeometryUpdate.
  destruct (negb (m_geometryNeedUpdate t)
            && (getTextureCacheId font (m_characterSize t) =? m_fontTextureId t)%N);
    [reflexivity | apply rebuildGeometry_style].
Qed.

Lemma styleOf_inv t t' :
  styleOf t = styleOf t' ->
  m_string t = m_string t' /\ m_characterSize t = m_characterSize t' /\
  m_style t = m_style t' /\ m_lineAlignment t = m_lineAlignment t'.
Proof. unfold styleOf. intros H. injection H. auto. Qed.

Lemma fold_left_ext_all (A B : Type) (f g : A -> B -> A) :
  (forall a b, f a b = g a b) -> forall l a, fold_left f l a = fold_left g l a.
Proof.
  intros H l. induction l as [|b l IH]; intros a; cbn; [reflexivity|].
  rewrite H. apply IH.
Qed.

Lemma lineStep_ext font t t' (ls : LineState) c :
  styleOf t = styleOf t' -> lineStep font t ls c = lineStep font t' ls c.
Proof.
  destruct t as [s sz lf lsf sty fc oc ot al vs os b d id lo r].
  destruct t' as [s' sz' lf' lsf' sty' fc' oc' ot' al' vs' os' b' d' id' lo' r'].
  unfold styleOf. cbn. intros H. injection H as -> -> -> -> -> -> -> -> ->.
  reflexivity.
Qed.

Lemma posStep_ext font t t' (ps : PosState) c :
  styleOf t = styleOf t' -> posStep font t ps c = posStep font t' ps c.
Proof.
  destruct t as [s sz lf lsf sty fc oc ot al vs os b d id lo r].
  destruct t' as [s' sz' lf' lsf' sty' fc' oc' ot' al' vs' os' b' d' id' lo' r'].
  unfold styleOf. cbn. intros H. injection H as -> -> -> -> -> -> -> -> ->.
  reflexivity.
Qed.

Lemma lineWalk_ext font t t' :
  styleOf t = styleOf t' -> lineWalk font t = lineWalk font t'.
Proof.
  intros H. unfold lineWalk. destruct (styleOf_inv t t' H) as (<- & _).
  apply fold_left_ext_all. intros ls c. apply lineStep_ext. exact H.
Qed.

Lemma updateLineOffsets_ext font t t' :
  styleOf t = styleOf t' ->
  m_lineOffsets (updateLineOffsets font t) = m_lineOffsets (updateLineOffsets font t').
Proof.
  intros H. unfold updateLineOffsets, lineWidths. cbn [m_lineOffsets set_lineOffsets].
  rewrite (lineWalk_ext font t t' H).
  destruct (styleOf_inv t t' H) as (_ & _ & _ & <-). reflexivity.
Qed.

Lemma geometryStep_ext font t t' st c :
  styleOf t = styleOf t' -> m_lineOffsets t = m_lineOffsets t' ->
  geometryStep font t st c = geometryStep font t' st c.
Proof.
  destruct t as [s sz lf lsf sty fc oc ot al vs os b d id lo r].
  destruct t' as [s' sz' lf' lsf' sty' fc' oc' ot' al' vs' os' b' d' id' lo' r'].
  unfold styleOf. cbn. intros H ->. injection H as -> -> -> -> -> -> -> -> ->.
  reflexivity.
Qed.

Lemma geometryFinish_ext font t t' st :
  styleOf t = styleOf t' -> geometryFinish font t st = geometryFinish font t' st.
Proof.
  destruct t as [s sz lf lsf sty fc oc ot al vs os b d id lo r].
  destruct t' as [s' sz' lf' lsf' sty' fc' oc' ot' al' vs' os' b' d' id' lo' r'].
  unfold styleOf. cbn. intros H. injection H as -> -> -> -> -> -> -> -> ->.
  reflexivity.
Qed.

Lemma rebuildGeometry_style_only font t t' :
  styleOf t = styleOf t' ->
  geometryOf (rebuildGeometry font t) = geometryOf (rebuildGeometry font t').
Proof.
  intros H. rewrite !rebuildGeometry_geometry.
  destruct (styleOf_inv t t' H) as (Hs & Hsz & _). rewrite <- Hs.
  destruct (m_string t) as [|c s]; [reflexivity|]. cbv zeta.
  set (t2 := updateLineOffsets font (beginRebuild font t)).
  set (t2' := updateLineOffsets font (beginRebuild font t')).
  assert (Hst : styleOf t2 = styleOf t2') by exact H.
  assert (Hlo : m_lineOffsets t2 = m_lineOffsets t2').
  { apply updateLineOffsets_ext. exact H. }
  rewrite (geometryFinish_ext font t2 t2' _ Hst). f_equal.
  unfold geometryWalk.
  replace (geomInit t2') with (geomInit t2).
  - apply fold_left_ext_all. intros st ch. apply geometryStep_ext; assumption.
  - unfold geomInit. rewrite Hlo.
    change (m_characterSize t2) with (m_characterSize t).
    change (m_characterSize t2') with (m_characterSize t'). rewrite Hsz. reflexivity.
Qed.

(** X4.  A rebuild never writes a member the setters own: string, character
    size, spacing factors, style, both colors, outline thickness and line
    alignment come out of [ensureGeometryUpdate], [getLocalBounds],
    [getGlobalBounds] and [draw] as they went in. *)
Theorem cache_access_keeps_style font t :
  styleOf (ensureGeometryUpdate font t) = styleOf t /\
  styleOf (snd (getLocalBounds font t)) = styleOf t /\
  styleOf (snd (draw font t)) = styleOf t /\
  (forall transformRect : FloatRect -> FloatRect,
     styleOf (snd (getGlobalBounds font transformRect t)) = styleOf t) /\
  styleOf (rebuildGeometry font t) = styleOf t.
Proof.
  repeat split; intros; try apply ensureGeometryUpdate_style. apply rebuildGeometry_style.
Qed.

(** X5.  The rebuilt geometry is a function of the style members alone:
    two text objects with the same style, whatever their caches, dirty
    flags and line-offset tables hold, rebuild to the same fill vertices,
    outline vertices and bounds.  In particular a rebuild forced on a
    rebuilt object reproduces its geometry. *)
Theorem rebuild_is_function_of_style font t t' :
  styleOf t = styleOf t' ->
  geometryOf (rebuildGeometry font t) = geometryOf (rebuildGeometry font t') /\
  geometryOf (rebuildGeometry font (rebuildGeometry font t)) =
    geometryOf (rebuildGeometry font t).
Proof.
  intros H. split.
  - apply rebuildGeometry_style_only. exact H.
  - apply rebuildGeometry_style_only. apply rebuildGeometry_style.
Qed.

(** X6.  The empty string: the rebuild leaves both vertex arrays empty and
    the bounds at the zero rectangle, for every style, outline thickness and
    alignment, and does not touch the line-offset table. *)
Theorem rebuild_empty_string font t :
  m_string t = [] ->
  geometryOf (rebuildGeometry font t) = ([], [], mkRect f0 f0 f0 f0) /\
  m_lineOffsets (rebuildGeometry font t) = m_lineOffsets t /\
  (m_geometryNeedUpdate t = true ->
   fst (getLocalBounds font t) = mkRect f0 f0 f0 f0 /\
   fst (draw font t) = (if hasOutline t then [[]] else []) ++ [[]]).
Proof.
  intros Hs.
  assert (Hr : rebuildGeometry font t = beginRebuild font t).
  { unfold rebuildGeometry. change (m_string (beginRebuild font t)) with (m_string t).
    rewrite Hs. reflexivity. }
  rewrite Hr. repeat split.
  - unfold getLocalBounds. rewrite ensureGeometryUpdate_dirty, Hr by assumption. reflexivity.
  - unfold draw. rewrite ensureGeometryUpdate_dirty, Hr by assumption. reflexivity.
Qed.

(** ** Colors *)

Lemma recolor_app (col : Color) (a b : list Vertex) :
  recolor col (a ++ b) = recolor col a ++ recolor col b.
Proof. apply map_app. Qed.

Lemma addLine_recolor (col col' : Color) (vs : list Vertex) (l r y o th ot : float) :
  recolor col (addLine vs l r y col' o th ot) = addLine (recolor col vs) l r y col o th ot.
Proof. unfold addLine. rewrite recolor_app. reflexivity. Qed.

Lemma addGlyphQuad_recolor (col col' : Color) (vs : list Vertex) (p : Vector2f) (g : Glyph)
  (sh : float) :
  recolor col (addGlyphQuad vs p col' g sh) = addGlyphQuad (recolor col vs) p col g sh.
Proof. unfold addGlyphQuad. rewrite recolor_app. reflexivity. Qed.

Lemma decorate_recolor (fill outl : Color) t (on : bool) (l x y o th : float)
  (vs os : list Vertex) :
  decorate (withColors fill outl t) on l x y o th (recolor fill vs, recolor outl os) =
  (recolor fill (fst (decorate t on l x y o th (vs, os))),
   recolor outl (snd (decorate t on l x y o th (vs, os)))).
Proof.
  unfold decorate. change (hasOutline (withColors fill outl t)) with (hasOutline t).
  destruct on; [|reflexivity]. cbn [fst snd withColors m_fillColor m_outlineColor
                                     m_outlineThickness].
  rewrite addLine_recolor. destruct (hasOutline t); [rewrite addLine_recolor|]; reflexivity.
Qed.

Lemma decorate_recolor_pair (fill outl : Color) t (on : bool) (l x y o th : float)
  (vo : list Vertex * list Vertex) :
  decorate (withColors fill outl t) on l x y o th
    (recolor fill (fst vo), recolor outl (snd vo)) =
  (recolor fill (fst (decorate t on l x y o th vo)),
   recolor outl (snd (decorate t on l x y o th vo))).
Proof. destruct vo as [vs os]. apply decorate_recolor. Qed.

Lemma geometryStep_recolor (fill outl : Color) font t st c :
  geometryStep font (withColors fill outl t) (recolorState fill outl st) c =
  recolorState fill outl (geometryStep font t st c).
Proof.
  unfold geometryStep.
  destruct (c =? cp_return)%N; [reflexivity|].
  change (getSpacing font (withColors fill outl t)) with (getSpacing font t).
  change (isBold (withColors fill outl t)) with (isBold t).
  change (isUnderlined (withColors fill outl t)) with (isUnderlined t).
  change (isStrikeThrough (withColors fill outl t)) with (isStrikeThrough t).
  change (hasOutline (withColors fill outl t)) with (hasOutline t).
  change (italicShear (withColors fill outl t)) with (italicShear t).
  change (underlineOffset font (withColors fill outl t)) with (underlineOffset font t).
  change (underlineThickness font (withColors fill outl t)) with (underlineThickness font t).
  change (strikeThroughOffset font (withColors fill outl t)) with (strikeThroughOffset font t).
  cbn [recolorState g_x g_y g_minX g_minY g_maxX g_maxY g_prevChar g_line
       g_horizontalOffset g_vertices g_outlineVertices
       withColors m_characterSize m_lineOffsets m_fillColor m_outlineColor m_outlineThickness].
  rewrite decorate_recolor. rewrite decorate_recolor_pair.
  cbn [fst snd].
  destruct ((c =? cp_space) || (c =? cp_newline) || (c =? cp_tab))%N.
  - destruct (c =? cp_space)%N; [reflexivity|]. destruct (c =? cp_tab)%N; reflexivity.
  - unfold recolorState. cbn [g_vertices g_outlineVertices g_x g_y g_minX g_minY g_maxX
                               g_maxY g_prevChar g_line g_horizontalOffset].
    rewrite addGlyphQuad_recolor.
    destruct (hasOutline t); [rewrite addGlyphQuad_recolor|]; reflexivity.
Qed.

Lemma geometryWalk_recolor (fill outl : Color) font t (s : list N) : forall st,
  fold_left (geometryStep font (withColors fill outl t)) s (recolorState fill outl st) =
  recolorState fill outl (fold_left (geometryStep font t) s st).
Proof.
  induction s as [|c s IH]; intros st; cbn [fold_left]; [reflexivity|].
  rewrite geometryStep_recolor. apply IH.
Qed.

Lemma geometryFinish_recolor (fill outl : Color) font t st :
  geometryFinish font (withColors fill outl t) (recolorState fill outl st) =
  (recolor fill (fst (fst (geometryFinish font t st))),
   recolor outl (snd (fst (geometryFinish font t st))),
   snd (geometryFinish font t st)).
Proof.
  unfold geometryFinish.
  change (isUnderlined (withColors fill outl t)) with (isUnderlined t).
  change (isStrikeThrough (withColors fill outl t)) with (isStrikeThrough t).
  change (hasOutline (withColors fill outl t)) with (hasOutline t).
  change (underlineOffset font (withColors fill outl t)) with (underlineOffset font t).
  change (underlineThickness font (withColors fill outl t)) with (underlineThickness font t).
  change (strikeThroughOffset font (withColors fill outl t)) with (strikeThroughOffset font t).
  cbn [recolorState g_x g_y g_minX g_minY g_maxX g_maxY g_horizontalOffset
       g_vertices g_outlineVertices withColors m_outlineThickness].
  rewrite decorate_recolor. rewrite decorate_recolor_pair. reflexivity.
Qed.

Lemma lineOffsets_withColors (fill outl : Color) font t :
  m_lineOffsets (updateLineOffsets font (beginRebuild font (withColors fill outl t))) =
  m_lineOffsets (updateLineOffsets font (beginRebuild font t)).
Proof.
  unfold updateLineOffsets, lineWidths. cbn [m_lineOffsets set_lineOffsets].
  replace (lineWalk font (beginRebuild font (withColors fill outl t)))
    with (lineWalk font (beginRebuild font t)); [reflexivity|].
  unfold lineWalk. apply fold_left_ext_all. reflexivity.
Qed.

Lemma rebuildGeometry_withColors (fill outl : Color) font t :
  geometryOf (rebuildGeometry font (withColors fill outl t)) =
  (recolor fill (m_vertices (rebuildGeometry font t)),
   recolor outl (m_outlineVertices (rebuildGeometry font t)),
   m_bounds (rebuildGeometry font t)).
Proof.
  assert (H : forall u, (m_vertices u, m_outlineVertices u, m_bounds u) = geometryOf u)
    by reflexivity.
  assert (Hg : geometryOf (rebuildGeometry font t) =
               (m_vertices (rebuildGeometry font t),
                m_outlineVertices (rebuildGeometry font t),
                m_bounds (rebuildGeometry font t))) by reflexivity.
  rewrite rebuildGeometry_geometry in Hg |- *.
  change (m_string (withColors fill outl t)) with (m_string t).
  destruct (m_string t) as [|c s].
  - injection Hg as <- <- <-. reflexivity.
  - cbv zeta in Hg |- *.
    set (t2 := updateLineOffsets font (beginRebuild font t)) in *.
    assert (Hext : forall st ch,
              geometryStep font (updateLineOffsets font (beginRebuild font (withColors fill outl t)))
                st ch = geometryStep font (withColors fill outl t2) st ch).
    { intros st ch. apply geometryStep_ext; [reflexivity|].
      subst t2. apply lineOffsets_withColors. }
    unfold geometryWalk.
    rewrite (fold_left_ext_all _ _ _ _ Hext).
    rewrite (geometryFinish_ext font _ (withColors fill outl t2) _ eq_refl).
    replace (geomInit (updateLineOffsets font (beginRebuild font (withColors fill outl t))))
      with (recolorState fill outl (geomInit t2)).
    + rewrite geometryWalk_recolor, geometryFinish_recolor.
      unfold geometryWalk in Hg. rewrite Hg. reflexivity.
    + unfold geomInit, recolorState. cbn [g_x g_y g_minX g_minY g_maxX g_maxY g_prevChar
        g_line g_horizontalOffset g_vertices g_outlineVertices recolor map].
      replace (m_lineOffsets (updateLineOffsets font (beginRebuild font (withColors fill outl t))))
        with (m_lineOffsets t2)
        by (subst t2; symmetry; apply lineOffsets_withColors).
      reflexivity.
Qed.

Lemma withColors_same t : withColors (m_fillColor t) (m_outlineColor t) t = t.
Proof. destruct t; reflexivity. Qed.

Lemma recolor_fixed (col : Color) (vs : list Vertex) :
  recolor col vs = vs -> Forall (fun v => color v = col) vs.
Proof.
  induction vs as [|v vs IH]; cbn; intros H; constructor.
  - injection H as Hv _. rewrite <- Hv. reflexivity.
  - apply IH. injection H as _ H. exact H.
Qed.

Lemma rebuildGeometry_colors font t :
  recolor (m_fillColor t) (m_vertices (rebuildGeometry font t)) =
    m_vertices (rebuildGeometry font t) /\
  recolor (m_outlineColor t) (m_outlineVertices (rebuildGeometry font t)) =
    m_outlineVertices (rebuildGeometry font t).
Proof.
  pose proof (rebuildGeometry_withColors (m_fillColor t) (m_outlineColor t) font t) as H.
  rewrite withColors_same in H. unfold geometryOf in H.
  injection H as Hv Ho. split; congruence.
Qed.

(** X7.  After a rebuild every vertex of the fill array carries the fill
    color and every vertex of the outline array the outline color, glyph
    quads and decoration lines alike. *)
Theorem rebuild_vertex_colors font t :
  Forall (fun v => color v = m_fillColor t) (m_vertices (rebuildGeometry font t)) /\
  Forall (fun v => color v = m_outlineColor t) (m_outlineVertices (rebuildGeometry font t)).
Proof.
  destruct (rebuildGeometry_colors font t) as [Hv Ho].
  split; apply recolor_fixed; assumption.
Qed.

(** X8.  The color fast path agrees with a rebuild: a color setter applied
    to freshly rebuilt geometry gives the fill vertices, outline vertices
    and bounds that a rebuild after the color change gives. *)
Theorem color_fast_path_agrees_with_rebuild font t (col : Color) :
  geometryOf (setFillColor col (rebuildGeometry font t)) =
    geometryOf (rebuildGeometry font (setFillColor col t)) /\
  geometryOf (setOutlineColor col (rebuildGeometry font t)) =
    geometryOf (rebuildGeometry font (setOutlineColor col t)).
Proof.
  destruct (rebuildGeometry_colors font t) as [Hv Ho].
  destruct (rebuildGeometry_gate font t) as (Hd & _).
  pose proof (rebuildGeometry_style font t) as Hst.
  assert (Hfc : m_fillColor (rebuildGeometry font t) = m_fillColor t).
  { unfold styleOf in Hst. injection Hst. auto. }
  assert (Hoc : m_outlineColor (rebuildGeometry font t) = m_outlineColor t).
  { unfold styleOf in Hst. injection Hst. auto. }
  split.
  - rewrite (rebuildGeometry_style_only font (setFillColor col t)
               (withColors col (m_outlineColor t) t)).
    + rewrite rebuildGeometry_withColors, Ho.
      unfold setFillColor. rewrite Hfc, Hd.
      destruct (color_eqb col (m_fillColor t)) eqn:E; [|reflexivity].
      apply color_eqb_eq in E. subst col. rewrite Hv. reflexivity.
    + unfold setFillColor.
      destruct (color_eqb col (m_fillColor t)) eqn:E; [|reflexivity].
      apply color_eqb_eq in E. subst col. reflexivity.
  - rewrite (rebuildGeometry_style_only font (setOutlineColor col t)
               (withColors (m_fillColor t) col t)).
    + rewrite rebuildGeometry_withColors, Hv.
      unfold setOutlineColor. rewrite Hoc, Hd.
      destruct (color_eqb col (m_outlineColor t)) eqn:E; [|reflexivity].
      apply color_eqb_eq in E. subst col. rewrite Ho. reflexivity.
    + unfold setOutlineColor.
      destruct (color_eqb col (m_outlineColor t)) eqn:E; [|reflexivity].
      apply color_eqb_eq in E. subst col. reflexivity.
Qed.

(** ** Vertex counts with decoration lines *)

Lemma decorate_lengths t (on : bool) (l x y o th : float) (vo : list Vertex * list Vertex) :
  length (fst (decorate t on l x y o th vo)) = length (fst vo) + (if on then 6 else 0) /\
  length (snd (decorate t on l x y o th vo)) =
    length (snd vo) + (if on && hasOutline t then 6 else 0).
Proof.
  unfold decorate. destruct on; cbn [fst snd andb]; [|lia].
  rewrite addLine_length. destruct (hasOutline t); [rewrite addLine_length|]; lia.
Qed.

Lemma decorations_lengths t (b : bool) (l x y uo so th : float)
  (vo : list Vertex * list Vertex) :
  let k := (if isUnderlined t then 1 else 0) + (if isStrikeThrough t then 1 else 0) in
  let vo2 := decorate t (isStrikeThrough t && b) l x y so th
               (decorate t (isUnderlined t && b) l x y uo th vo) in
  length (fst vo2) = length (fst vo) + 6 * (k * (if b then 1 else 0)) /\
  length (snd vo2) =
    length (snd vo) + (if hasOutline t then 6 * (k * (if b then 1 else 0)) else 0).
Proof.
  cbv zeta.
  destruct (decorate_lengths t (isStrikeThrough t && b) l x y so th
              (decorate t (isUnderlined t && b) l x y uo th vo)) as [H2f H2o].
  destruct (decorate_lengths t (isUnderlined t && b) l x y uo th vo) as [H1f H1o].
  rewrite H2f, H2o, H1f, H1o.
  destruct (isUnderlined t), (isStrikeThrough t), b, (hasOutline t); cbn [andb]; lia.
Qed.

Lemma geometryStep_counts_decorated font t st c :
  let k := (if isUnderlined t then 1 else 0) + (if isStrikeThrough t then 1 else 0) in
  let brk := if negb (c =? cp_return)%N && (c =? cp_newline)%N
                && negb (g_prevChar st =? cp_newline)%N then 1 else 0 in
  let n := (if isVisible c then 1 else 0) + k * brk in
  length (g_vertices (geometryStep font t st c)) = length (g_vertices st) + 6 * n /\
  length (g_outlineVertices (geometryStep font t st c)) =
    length (g_outlineVertices st) + (if hasOutline t then 6 * n else 0) /\
  g_prevChar (geometryStep font t st c) = if (c =? cp_return)%N then g_prevChar st else c.
Proof.
  cbv zeta. unfold geometryStep, isVisible.
  destruct (N.eqb_spec c cp_return) as [->|_].
  { cbn. destruct (hasOutline t); repeat split; lia. }
  match goal with
  | |- context [decorate t (isStrikeThrough t && ?b) ?l ?x ?y ?so ?th
                  (decorate t _ _ _ _ ?uo _ ?vo)] =>
      destruct (decorations_lengths t b l x y uo so th vo) as [Hf Ho]
  end.
  cbv zeta in Hf, Ho. cbn [fst snd] in Hf, Ho.
  destruct (N.eqb_spec c cp_space) as [E|_].
  { rewrite E in *. cbn [orb negb andb g_vertices g_outlineVertices g_prevChar] in *.
    change (cp_space =? cp_newline)%N with false in *. cbn [andb] in *.
    rewrite Hf, Ho. destruct (hasOutline t); repeat split; lia. }
  destruct (N.eqb_spec c cp_newline) as [E|_].
  { rewrite E in *. change (cp_newline =? cp_tab)%N with false.
    cbn [orb negb andb g_vertices g_outlineVertices g_prevChar] in *.
    rewrite Hf, Ho. destruct (hasOutline t); repeat split; lia. }
  cbn [andb] in Hf, Ho.
  destruct (N.eqb_spec c cp_tab) as [E|_].
  { cbn [orb negb andb g_vertices g_outlineVertices g_prevChar].
    rewrite Hf, Ho. destruct (hasOutline t); repeat split; lia. }
  cbn [orb negb andb g_vertices g_outlineVertices g_prevChar].
  rewrite addGlyphQuad_length, Hf.
  destruct (hasOutline t); [rewrite addGlyphQuad_length, Ho|rewrite Ho]; repeat split; lia.
Qed.

Lemma visibleCount_cons c (s : list N) :
  visibleCount (c :: s) = (if isVisible c then 1 else 0) + visibleCount s.
Proof. unfold visibleCount. cbn [filter]. destruct (isVisible c); reflexivity. Qed.

Lemma geometryWalk_counts_decorated font t (s : list N) : forall st,
  let k := (if isUnderlined t then 1 else 0) + (if isStrikeThrough t then 1 else 0) in
  let n := visibleCount s + k * lineBreaks (g_prevChar st) s in
  length (g_vertices (fold_left (geometryStep font t) s st)) =
    length (g_vertices st) + 6 * n /\
  length (g_outlineVertices (fold_left (geometryStep font t) s st)) =
    length (g_outlineVertices st) + (if hasOutline t then 6 * n else 0).
Proof.
  cbv zeta. induction s as [|c s IH]; intros st; cbn [fold_left lineBreaks].
  - cbn. destruct (hasOutline t); lia.
  - destruct (IH (geometryStep font t st c)) as [IHv IHo].
    destruct (geometryStep_counts_decorated font t st c) as (Hv & Ho & Hp).
    cbv zeta in Hv, Ho. rewrite IHv, IHo, Hv, Ho, Hp, visibleCount_cons.
    destruct (c =? cp_return)%N; cbn [negb andb];
      destruct (hasOutline t); split; lia.
Qed.

Lemma rebuildGeometry_counts font t :
  let t2 := updateLineOffsets font (beginRebuild font t) in
  let k := (if isUnderlined t then 1 else 0) + (if isStrikeThrough t then 1 else 0) in
  let last := match m_string t with
              | [] => 0
              | _ :: _ => if fltb f0 (g_x (geometryWalk font t2 (m_string t))) then 1 else 0
              end in
  let n := visibleCount (m_string t) + k * (lineBreaks 0%N (m_string t) + last) in
  length (m_vertices (rebuildGeometry font t)) = 6 * n /\
  length (m_outlineVertices (rebuildGeometry font t)) = if hasOutline t then 6 * n else 0.
Proof.
  cbv zeta.
  pose proof (rebuildGeometry_geometry font t) as Hg. unfold geometryOf in Hg.
  destruct (m_string t) as [|c s] eqn:Es.
  - injection Hg as -> -> _. cbn. destruct (hasOutline t); split; lia.
  - cbv zeta in Hg.
    set (t2 := updateLineOffsets font (beginRebuild font t)) in *.
    set (stF := geometryWalk font t2 (c :: s)) in *.
    destruct (geometryWalk_counts_decorated font t2 (c :: s) (geomInit t2)) as [Hv Ho].
    cbv zeta in Hv, Ho. fold (geometryWalk font t2 (c :: s)) in Hv, Ho. fold stF in Hv, Ho.
    change (isUnderlined t2) with (isUnderlined t) in Hv, Ho.
    change (isStrikeThrough t2) with (isStrikeThrough t) in Hv, Ho.
    change (hasOutline t2) with (hasOutline t) in Ho.
    change (g_prevChar (geomInit t2)) with 0%N in Hv, Ho.
    cbn [geomInit g_vertices g_outlineVertices length] in Hv, Ho.
    unfold geometryFinish in Hg.
    destruct (decorations_lengths t2 (fltb f0 (g_x stF)) (g_horizontalOffset stF) (g_x stF)
                (g_y stF) (underlineOffset font t2) (strikeThroughOffset font t2)
                (underlineThickness font t2) (g_vertices stF, g_outlineVertices stF))
      as [Hf Ho2].
    cbv zeta in Hf, Ho2. cbn [fst snd] in Hf, Ho2.
    injection Hg as Hmv Hmo _. rewrite Hmv, Hmo, Hf, Ho2, Hv, Ho.
    change (isUnderlined t2) with (isUnderlined t).
    change (isStrikeThrough t2) with (isStrikeThrough t).
    change (hasOutline t2) with (hasOutline t).
    destruct (isUnderlined t), (isStrikeThrough t), (fltb f0 (g_x stF)), (hasOutline t);
      split; lia.
Qed.

(** X9.  The size of the fill array for every style.  It holds six vertices
    for each code point other than space, tab, newline and carriage return,
    and, per decoration style that is on (underline, strikethrough), six for
    each newline that follows a code point other than a newline (carriage
    returns stepped over) and six more when the string is not empty and the
    cursor x after the walk is greater than zero. *)
Theorem rebuild_vertex_count_decorated font t :
  let t2 := updateLineOffsets font (beginRebuild font t) in
  let k := (if isUnderlined t then 1 else 0) + (if isStrikeThrough t then 1 else 0) in
  let last := match m_string t with
              | [] => 0
              | _ :: _ => if fltb f0 (g_x (geometryWalk font t2 (m_string t))) then 1 else 0
              end in
  length (m_vertices (rebuildGeometry font t)) =
    6 * (visibleCount (m_string t) + k * (lineBreaks 0%N (m_string t) + last)).
Proof. intros t2 k last. apply (rebuildGeometry_counts font t). Qed.

(** X10.  The outline array mirrors the fill array: with an outline
    thickness that compares equal to zero the rebuild leaves it empty,
    whatever the style, and [draw] submits the fill array alone; with any
    other thickness it holds as many vertices as the fill array, and [draw]
    submits it ahead of the fill array. *)
Theorem outline_mirrors_fill font t :
  (hasOutline t = false ->
     m_outlineVertices (rebuildGeometry font t) = [] /\
     fst (draw font (rebuildGeometry font t)) = [m_vertices (rebuildGeometry font t)]) /\
  (hasOutline t = true ->
     length (m_outlineVertices (rebuildGeometry font t)) =
       length (m_vertices (rebuildGeometry font t)) /\
     fst (draw font (rebuildGeometry font t)) =
       [m_outlineVertices (rebuildGeometry font t); m_vertices (rebuildGeometry font t)]).
Proof.
  destruct (rebuildGeometry_counts font t) as [Hv Ho]. cbv zeta in Hv, Ho.
  destruct (rebuildGeometry_gate font t) as (Hd & Hid & Hsz & _).
  assert (Hhit : ensureGeometryUpdate font (rebuildGeometry font t) = rebuildGeometry font t).
  { apply ensureGeometryUpdate_hit; [exact Hd | rewrite Hsz, Hid; reflexivity]. }
  assert (Hol : hasOutline (rebuildGeometry font t) = hasOutline t).
  { pose proof (rebuildGeometry_style font t) as H. unfold styleOf in H.
    unfold hasOutline. injection H. intros _ -> _ _ _ _ _ _ _. reflexivity. }
  split; intros H; rewrite H in Ho.
  - split.
    + destruct (m_outlineVertices (rebuildGeometry font t)); [reflexivity | discriminate Ho].
    + unfold draw. rewrite Hhit, Hol, H. reflexivity.
  - split.
    + rewrite Ho, Hv. reflexivity.
    + unfold draw. rewrite Hhit, Hol, H. reflexivity.
Qed.

End RebuildFacts.

Section WalkFacts.
Context {FO : FloatOps}.
Implicit Types (font : Font) (t : Text) (st : GeomState) (c : N).

(** ** The line-offset table *)

(** X11.  [updateLineOffsets] writes one offset per line, that is one more
    than the string has newlines; the empty string gets the single offset of
    an empty line.  It writes nothing but the table. *)
Theorem lineOffsets_one_per_line font t :
  length (m_lineOffsets (updateLineOffsets font t)) = S (newlineCount (m_string t)) /\
  (m_string t = [] ->
   m_lineOffsets (updateLineOffsets font t) = [alignOffset (m_lineAlignment t) f0 f0]) /\
  styleOf (updateLineOffsets font t) = styleOf t /\
  cacheOf (updateLineOffsets font t) = cacheOf t /\
  m_geometryNeedUpdate (updateLineOffsets font t) = m_geometryNeedUpdate t.
Proof.
  split; [apply lineOffsets_length|]. split; [|repeat split].
  intros Hs. unfold updateLineOffsets, lineWidths, lineWalk. rewrite Hs. reflexivity.
Qed.

Lemma lineOffsets_left font t :
  m_lineAlignment t = Left ->
  m_lineOffsets (updateLineOffsets font t) =
  repeat (fround f0) (S (newlineCount (m_string t))).
Proof.
  intros Ha. rewrite <- (lineOffsets_length font t).
  unfold updateLineOffsets. cbn [m_lineOffsets set_lineOffsets]. rewrite Ha, length_map.
  induction (lineWidths font t) as [|w ws IH]; cbn; [reflexivity | f_equal; exact IH].
Qed.

(** X12.  Under left alignment every entry of the table is [round(0)],
    whatever the string and the font. *)
Theorem lineOffsets_left_all_zero font t :
  m_lineAlignment t = Left ->
  m_lineOffsets (updateLineOffsets font t) =
  repeat (fround f0) (S (newlineCount (m_string t))).
Proof. apply lineOffsets_left. Qed.

Lemma newlineCount_firstn_le (s : list N) (n : nat) :
  newlineCount (firstn n s) <= newlineCount s.
Proof.
  rewrite <- (firstn_skipn n s) at 2. rewrite newlineCount_app. lia.
Qed.

(** X13.  The geometry loop never reads the table out of range: after any
    prefix of the string its line index is the number of newlines of the
    prefix, which is below the size of the table [updateLineOffsets] wrote
    for the string. *)
Theorem geometry_line_index_in_range font t (p q : list N) :
  m_string t = p ++ q ->
  let t2 := updateLineOffsets font t in
  g_line (geometryWalk font t2 p) = newlineCount p /\
  g_line (geometryWalk font t2 p) < length (m_lineOffsets t2).
Proof.
  intros Hs t2. unfold geometryWalk. rewrite geometryWalk_line.
  subst t2. rewrite lineOffsets_length, Hs, newlineCount_app. cbn. lia.
Qed.

(** ** The position query against the other two walks *)

Lemma posLoop_posWalk font t (n : nat) : forall (i : nat) (ps : PosState),
  n + i <= length (m_string t) ->
  posLoop font t n i ps = Some (posWalk font t (firstn n (skipn i (m_string t))) ps).
Proof.
  unfold posWalk. induction n as [|n IH]; intros i ps Hle; cbn [posLoop firstn].
  - reflexivity.
  - destruct (nth_error (m_string t) i) as [ch|] eqn:E.
    + rewrite IH by lia.
      assert (Hsk : skipn i (m_string t) = ch :: skipn (S i) (m_string t)).
      { clear -E. revert i E. induction (m_string t) as [|a l IHl]; intros [|i] E; cbn in *;
          try discriminate.
        - injection E as ->. reflexivity.
        - apply IHl. exact E. }
      rewrite Hsk. reflexivity.
    + apply nth_error_None in E. lia.
Qed.

Lemma findCharacterLocalPos_walk font t (index : nat) :
  index <= length (m_string t) ->
  findCharacterLocalPos font t index =
  let t1 := updateLineOffsets font t in
  let ps := posWalk font t1 (firstn index (m_string t))
              (mkPosState (nth 0 (m_lineOffsets t1) f0) f0 0%N) in
  Some (mkVec (p_x ps) (p_y ps)).
Proof.
  intros Hle. unfold findCharacterLocalPos.
  destruct (Nat.ltb_spec (length (m_string t)) index) as [H|_]; [lia|].
  destruct (nth_error (m_lineOffsets (updateLineOffsets font t)) 0) as [x0|] eqn:E0.
  - rewrite posLoop_posWalk by (rewrite updateLineOffsets_string; lia).
    rewrite updateLineOffsets_string. cbn [skipn]. cbv zeta.
    rewrite (nth_error_nth _ _ f0 E0). reflexivity.
  - apply nth_error_None in E0. rewrite updateLineOffsets_length in E0. lia.
Qed.

Lemma lineOffsets_left_nth font t (i : nat) :
  m_lineAlignment t = Left -> fround f0 = f0 ->
  nth i (m_lineOffsets (updateLineOffsets font t)) f0 = f0.
Proof.
  intros Ha Hr. rewrite lineOffsets_left by exact Ha. rewrite Hr.
  generalize (S (newlineCount (m_string t))). intros n. revert i.
  induction n as [|n IH]; intros [|i]; cbn; auto.
Qed.

Lemma posWalk_geometryWalk font t1 t2 (s : list N) :
  styleOf t1 = styleOf t2 ->
  (forall i, nth i (m_lineOffsets t2) f0 = f0) ->
  Forall (fun c => c <> cp_return) s ->
  forall (ps : PosState) st,
  p_x ps = g_x st -> p_prevChar ps = g_prevChar st ->
  p_x (posWalk font t1 s ps) = g_x (fold_left (geometryStep font t2) s st).
Proof.
  intros Hst Hoff Hcr. unfold posWalk.
  induction Hcr as [|c s Hc _ IH]; intros ps st Hx Hp; cbn [fold_left]; [exact Hx|].
  apply IH.
  - rewrite (posStep_ext font t1 t2 ps c Hst).
    unfold posStep, geometryStep. rewrite Hx, Hp.
    destruct (N.eqb_spec c cp_return) as [E|_]; [contradiction|].
    destruct (N.eqb_spec c cp_space) as [->|_]; [reflexivity|].
    destruct (N.eqb_spec c cp_tab) as [->|_]; [reflexivity|].
    destruct (N.eqb_spec c cp_newline) as [->|_].
    + cbn [orb p_x g_x]. symmetry. apply Hoff.
    + reflexivity.
  - rewrite (posStep_ext font t1 t2 ps c Hst).
    unfold posStep, geometryStep.
    destruct (N.eqb_spec c cp_return) as [E|_]; [contradiction|].
    destruct (c =? cp_space)%N; [reflexivity|].
    destruct (c =? cp_tab)%N; [destruct (c =? cp_newline)%N; reflexivity|].
    destruct (c =? cp_newline)%N; reflexivity.
Qed.

(** X14.  Under left alignment, [round(0)] being 0, the position query and
    the geometry builder agree on x: for an index within the string whose
    first [index] code points hold no carriage return, the x of the local
    character position is the x at which the geometry loop stands after
    these code points. *)
Theorem findCharacterPos_matches_geometry_left font t (index : nat) :
  m_lineAlignment t = Left -> fround f0 = f0 ->
  index <= length (m_string t) ->
  Forall (fun c => c <> cp_return) (firstn index (m_string t)) ->
  let t2 := updateLineOffsets font (beginRebuild font t) in
  option_map (@vx _) (findCharacterLocalPos font t index) =
  Some (g_x (geometryWalk font t2 (firstn index (m_string t)))).
Proof.
  intros Ha Hr Hle Hcr t2.
  rewrite findCharacterLocalPos_walk by exact Hle. cbv zeta. cbn [option_map vx].
  f_equal. unfold geometryWalk.
  assert (Hoff2 : forall i, nth i (m_lineOffsets t2) f0 = f0).
  { intros i. subst t2. apply lineOffsets_left_nth; assumption. }
  apply posWalk_geometryWalk; try assumption; reflexivity.
Qed.

Lemma posWalk_lineWalk font t (s : list N) : forall (ps : PosState) (ls : LineState),
  p_x ps = l_x ls -> p_prevChar ps = l_prevChar ls ->
  p_x (posWalk font t s ps) = l_x (fold_left (lineStep font t) s ls).
Proof.
  unfold posWalk. induction s as [|c s IH]; intros ps ls Hx Hp; cbn [fold_left]; [exact Hx|].
  apply IH.
  - unfold posStep, lineStep. rewrite Hx, Hp.
    destruct (c =? cp_space)%N; [reflexivity|].
    destruct (c =? cp_tab)%N; [reflexivity|].
    destruct (c =? cp_newline)%N; reflexivity.
  - unfold posStep, lineStep.
    destruct (c =? cp_space)%N; [reflexivity|].
    destruct (c =? cp_tab)%N; [reflexivity|].
    destruct (c =? cp_newline)%N; reflexivity.
Qed.

(** X15.  Under left alignment, [round(0)] being 0, the end-of-text
    position has as its x the width of the last line, the one
    [updateLineOffsets] measures after the last newline. *)
Theorem findCharacterPos_end_is_last_width font t :
  m_lineAlignment t = Left -> fround f0 = f0 ->
  option_map (@vx _) (findCharacterLocalPos font t (length (m_string t))) =
  Some (last (lineWidths font t) f0).
Proof.
  intros Ha Hr.
  rewrite findCharacterLocalPos_walk by reflexivity. cbv zeta. cbn [option_map vx].
  rewrite firstn_all. unfold lineWidths. rewrite last_last. f_equal.
  rewrite lineOffsets_left_nth by assumption.
  unfold lineWalk.
  rewrite <- (fold_left_ext_all _ _ _ _
                (fun ls c => lineStep_ext font (updateLineOffsets font t) t ls c eq_refl)).
  apply posWalk_lineWalk; reflexivity.
Qed.

Lemma findCharacterLocalPos_ext font t t' (index : nat) :
  styleOf t = styleOf t' ->
  findCharacterLocalPos font t index = findCharacterLocalPos font t' index.
Proof.
  intros H. destruct (styleOf_inv t t' H) as (Hs & _).
  assert (Hgen : forall k, k <= length (m_string t) ->
            findCharacterLocalPos font t k = findCharacterLocalPos font t' k).
  { intros k Hk. rewrite !findCharacterLocalPos_walk by (rewrite <- ?Hs; exact Hk).
    cbv zeta. rewrite <- Hs, (updateLineOffsets_ext font t t' H).
    unfold posWalk.
    rewrite (fold_left_ext_all _ _ _ _
               (fun ps c => posStep_ext font (updateLineOffsets font t)
                              (updateLineOffsets font t') ps c H)).
    reflexivity. }
  destruct (Nat.le_gt_cases index (length (m_string t))) as [Hle|Hgt].
  - apply Hgen. exact Hle.
  - unfold findCharacterLocalPos at 1 2. rewrite <- Hs.
    destruct (Nat.ltb_spec (length (m_string t)) index) as [_|Hc]; [|lia].
    pose proof (Hgen (length (m_string t)) (le_n _)) as Hlen.
    unfold findCharacterLocalPos in Hlen. rewrite <- Hs, Nat.ltb_irrefl in Hlen.
    exact Hlen.
Qed.

(** X16.  The position query reads the style only: it returns the same
    point whether or not the geometry has been built, whatever the caches
    and dirty flags hold, and a change of color does not move it. *)
Theorem findCharacterPos_ignores_cache font (transformPoint : Vector2f -> Vector2f) t
  (index : nat) :
  (forall t', styleOf t' = styleOf t ->
     findCharacterPos font transformPoint t' index =
     findCharacterPos font transformPoint t index) /\
  findCharacterPos font transformPoint (ensureGeometryUpdate font t) index =
    findCharacterPos font transformPoint t index /\
  (forall col,
     findCharacterPos font transformPoint (setFillColor col t) index =
       findCharacterPos font transformPoint t index /\
     findCharacterPos font transformPoint (setOutlineColor col t) index =
       findCharacterPos font transformPoint t index).
Proof.
  assert (Hcol : forall fill outl u,
            findCharacterLocalPos font (withColors fill outl u) index =
            findCharacterLocalPos font u index).
  { intros fill outl u.
    assert (Hgen : forall k, k <= length (m_string u) ->
              findCharacterLocalPos font (withColors fill outl u) k =
              findCharacterLocalPos font u k).
    { intros k Hk. rewrite !findCharacterLocalPos_walk by exact Hk. reflexivity. }
    destruct (Nat.le_gt_cases index (length (m_string u))) as [Hle|Hgt].
    - apply Hgen. exact Hle.
    - unfold findCharacterLocalPos at 1 2.
      change (m_string (withColors fill outl u)) with (m_string u).
      destruct (Nat.ltb_spec (length (m_string u)) index) as [_|Hc]; [|lia].
      pose proof (Hgen (length (m_string u)) (le_n _)) as Hlen.
      unfold findCharacterLocalPos in Hlen.
      change (m_string (withColors fill outl u)) with (m_string u) in Hlen.
      rewrite Nat.ltb_irrefl in Hlen. exact Hlen. }
  unfold findCharacterPos. split; [|split].
  - intros t' H. rewrite (findCharacterLocalPos_ext font t' t index H). reflexivity.
  - rewrite (findCharacterLocalPos_ext font _ t index (ensureGeometryUpdate_style font t)).
    reflexivity.
  - intros col. split.
    + rewrite <- (Hcol col (m_outlineColor t) t).
      rewrite (findCharacterLocalPos_ext font (setFillColor col t)
                 (withColors col (m_outlineColor t) t) index); [reflexivity|].
      unfold setFillColor. destruct (color_eqb col (m_fillColor t)) eqn:E; [|reflexivity].
      apply color_eqb_eq in E. subst col. reflexivity.
    + rewrite <- (Hcol (m_fillColor t) col t).
      rewrite (findCharacterLocalPos_ext font (setOutlineColor col t)
                 (withColors (m_fillColor t) col t) index); [reflexivity|].
      unfold setOutlineColor. destruct (color_eqb col (m_outlineColor t)) eqn:E; [|reflexivity].
      apply color_eqb_eq in E. subst col. reflexivity.
Qed.

Lemma posStep_y font t (ps : PosState) c :
  p_y (posStep font t ps c) =
  if (c =? cp_newline)%N then fadd (p_y ps) (lineSpacing (getSpacing font t)) else p_y ps.
Proof.
  unfold posStep.
  destruct (N.eqb_spec c cp_space) as [->|_]; [reflexivity|].
  destruct (N.eqb_spec c cp_tab) as [->|_]; [reflexivity|].
  destruct (c =? cp_newline)%N; reflexivity.
Qed.

Lemma posWalk_y font t (s : list N) : forall ps : PosState,
  p_y (posWalk font t s ps) =
  Nat.iter (newlineCount s) (fun y => fadd y (lineSpacing (getSpacing font t))) (p_y ps).
Proof.
  unfold posWalk. induction s as [|c s IH]; intros ps; cbn [fold_left]; [reflexivity|].
  rewrite IH, posStep_y, newlineCount_cons.
  destruct (c =? cp_newline)%N; [|reflexivity].
  cbn [Nat.add]. rewrite Nat.iter_succ_r. reflexivity.
Qed.

(** X18.  The y of a local character position is 0 with the line spacing
    added to it once per newline among the code points before the index (the
    index clamped to the length): the query advances y at newlines only, by
    one float addition of the line spacing each. *)
Theorem findCharacterPos_line_height font t (index : nat) :
  exists p, findCharacterLocalPos font t index = Some p /\
    vy p = Nat.iter (newlineCount (firstn index (m_string t)))
             (fun y => fadd y (lineSpacing (getSpacing font t))) f0.
Proof.
  assert (Hin : forall k, k <= length (m_string t) ->
            exists p, findCharacterLocalPos font t k = Some p /\
              vy p = Nat.iter (newlineCount (firstn k (m_string t)))
                       (fun y => fadd y (lineSpacing (getSpacing font t))) f0).
  { intros k Hk. rewrite findCharacterLocalPos_walk by exact Hk. cbv zeta.
    eexists. split; [reflexivity|]. cbn [vy].
    rewrite posWalk_y. reflexivity. }
  destruct (Nat.le_gt_cases index (length (m_string t))) as [Hle|Hgt].
  - apply Hin. exact Hle.
  - destruct (Hin (length (m_string t)) (le_n _)) as (p & Hp & Hy).
    exists p. split.
    + unfold findCharacterLocalPos in *.
      rewrite Nat.ltb_irrefl in Hp.
      destruct (Nat.ltb_spec (length (m_string t)) index) as [_|Hc]; [exact Hp | lia].
    + rewrite firstn_all in Hy. rewrite firstn_all2 by lia. exact Hy.
Qed.

End WalkFacts.

(** * Further runs in exact arithmetic *)

Section ExactWalkFacts.
Local Open Scope Q_scope.

Lemma Qround_away_nonneg (a : Q) : 0 <= a -> 0 <= Qround_away a.
Proof.
  intros Ha. unfold Qround_away.
  destruct (Qle_bool 0 a) eqn:E.
  - change 0 with (inject_Z 0). rewrite <- Zle_Qle.
    change 0%Z with (Qfloor 0). apply Qfloor_resp_le.
    apply Qle_trans with a; [exact Ha|].
    rewrite <- (Qplus_0_r a) at 1. apply Qplus_le_r. discriminate.
  - apply Qle_bool_iff in Ha. congruence.
Qed.

Lemma alignOffset_nonneg (a : LineAlignment) (maxWidth w : Q) :
  w <= maxWidth -> 0 <= @alignOffset QOps a maxWidth w.
Proof.
  intros Hle. unfold alignOffset. apply Qround_away_nonneg.
  assert (Hd : 0 <= maxWidth - w).
  { unfold Qminus. rewrite <- (Qplus_opp_r w). apply Qplus_le_l. exact Hle. }
  destruct a; cbn [fsub fdiv of_Z QOps f0].
  - discriminate.
  - rewrite !Qred_correct. apply Qle_shift_div_l; [reflexivity|].
    rewrite Qmult_0_l. exact Hd.
  - rewrite Qred_correct. exact Hd.
Qed.

Lemma lineStep_maxWidth (font : @Font QOps) (t : @Text QOps) (ls : LineState) (c : N) :
  (0 <= l_maxWidth ls /\ Forall (fun x => x <= l_maxWidth ls) (l_widths ls) /\
   (l_maxWidth ls = 0 \/ In (l_maxWidth ls) (l_widths ls))) ->
  let ls' := lineStep font t ls c in
  0 <= l_maxWidth ls' /\ Forall (fun x => x <= l_maxWidth ls') (l_widths ls') /\
  (l_maxWidth ls' = 0 \/ In (l_maxWidth ls') (l_widths ls')).
Proof.
  intros (H0 & Hall & Hin). cbv zeta. unfold lineStep.
  destruct (c =? cp_space)%N; [auto|].
  destruct (c =? cp_tab)%N; [auto|].
  destruct (c =? cp_newline)%N; [|auto].
  cbn [l_maxWidth l_widths].
  set (x := fadd (l_x ls) _).
  unfold fltb; cbn [QOps].
  destruct (Qle_bool x (l_maxWidth ls)) eqn:E; cbn [negb].
  - apply Qle_bool_iff in E. repeat split.
    + exact H0.
    + apply Forall_app. split; [exact Hall | constructor; [exact E | constructor]].
    + destruct Hin as [Hz|Hi]; [left; exact Hz | right; apply in_or_app; left; exact Hi].
  - assert (Hlt : l_maxWidth ls < x).
    { apply Qnot_le_lt. intros Hle. apply Qle_bool_iff in Hle. congruence. }
    repeat split.
    + apply Qle_trans with (l_maxWidth ls); [exact H0 | apply Qlt_le_weak; exact Hlt].
    + apply Forall_app. split.
      * eapply Forall_impl; [|exact Hall]. intros a Ha. cbv beta in Ha.
        apply Qle_trans with (l_maxWidth ls); [exact Ha | apply Qlt_le_weak; exact Hlt].
      * constructor; [apply Qle_refl | constructor].
    + right. apply in_or_app. right. left. reflexivity.
Qed.

Lemma lineWalk_maxWidth (font : @Font QOps) (t : @Text QOps) (s : list N) :
  forall ls : LineState,
  (0 <= l_maxWidth ls /\ Forall (fun x => x <= l_maxWidth ls) (l_widths ls) /\
   (l_maxWidth ls = 0 \/ In (l_maxWidth ls) (l_widths ls))) ->
  let ls' := fold_left (lineStep font t) s ls in
  0 <= l_maxWidth ls' /\ Forall (fun x => x <= l_maxWidth ls') (l_widths ls') /\
  (l_maxWidth ls' = 0 \/ In (l_maxWidth ls') (l_widths ls')).
Proof.
  induction s as [|c s IH]; intros ls H; cbn [fold_left]; [exact H|].
  apply IH. apply lineStep_maxWidth. exact H.
Qed.

(** X17.  In exact arithmetic, the [maxWidth] of [updateLineOffsets] is the
    largest among 0 and the widths of the lines that a newline closes.  So
    the offsets of these lines are never negative, under every alignment;
    the last line is not among them. *)
Theorem lineOffsets_closed_lines_nonneg (font : @Font QOps) (t : @Text QOps) :
  let w := lineWalk font t in
  0 <= l_maxWidth w /\
  Forall (fun x => x <= l_maxWidth w) (l_widths w) /\
  (l_maxWidth w = 0 \/ In (l_maxWidth w) (l_widths w)) /\
  length (l_widths w) = newlineCount (m_string t) /\
  Forall (fun o => 0 <= o)
    (firstn (newlineCount (m_string t)) (m_lineOffsets (updateLineOffsets font t))).
Proof.
  intros w.
  assert (Hinit : 0 <= l_maxWidth (@lineInit QOps) /\
                  Forall (fun x => x <= l_maxWidth (@lineInit QOps)) (l_widths (@lineInit QOps)) /\
                  (l_maxWidth (@lineInit QOps) = 0 \/
                   In (l_maxWidth (@lineInit QOps)) (l_widths (@lineInit QOps)))).
  { cbn. repeat split; [discriminate | constructor | left; reflexivity]. }
  destruct (lineWalk_maxWidth font t (m_string t) lineInit Hinit) as (H0 & Hall & Hin).
  fold (lineWalk font t) in H0, Hall, Hin. fold w in H0, Hall, Hin.
  assert (Hlen : length (l_widths w) = newlineCount (m_string t)).
  { subst w. unfold lineWalk. rewrite lineWalk_widths. reflexivity. }
  repeat split; try assumption.
  unfold updateLineOffsets, lineWidths. cbn [m_lineOffsets set_lineOffsets]. fold w.
  rewrite map_app, <- Hlen, <- (length_map (alignOffset (m_lineAlignment t) (l_maxWidth w))).
  rewrite firstn_app, Nat.sub_diag, firstn_all, firstn_O, app_nil_r.
  apply Forall_map. eapply Forall_impl; [|exact Hall].
  intros a Ha. apply alignOffset_nonneg. exact Ha.
Qed.

End ExactWalkFacts.

(** ** The further theorems at concrete inputs *)

Section ExtraRuns.
Local Open Scope Q_scope.

Lemma setters_invalidate_witness :
  let t := ensureGeometryUpdate monoFont (testText str_A Regular Left) in
  Underlined <> m_style t /\
  m_geometryNeedUpdate (setStyle Underlined t) = true /\
  ensureGeometryUpdate monoFont (setStyle Underlined t) =
    rebuildGeometry monoFont (setStyle Underlined t) /\
  rebuilds (ensureGeometryUpdate monoFont (setStyle Underlined t)) = S (rebuilds t).
Proof.
  cbv zeta. split; [vm_compute; lia|].
  pose proof (proj1 (proj2 (proj2 (@setters_invalidate QOps monoFont
                (ensureGeometryUpdate monoFont (testText str_A Regular Left)))))
                Underlined) as H.
  cbv zeta in H.
  assert (Hne : Underlined <> m_style (ensureGeometryUpdate monoFont (testText str_A Regular Left)))
    by (vm_compute; lia).
  destruct (H Hne) as (_ & Hd & _ & He & Hr). split; [exact Hd | split; [exact He | exact Hr]].
Defined.

Lemma setters_store_value_witness :
  feqb (m_letterSpacingFactor (testText str_A Regular Left)) (1 : Q) = true /\
  setLetterSpacing (1 : Q) (testText str_A Regular Left) = testText str_A Regular Left.
Proof.
  split; [reflexivity|].
  destruct (@setters_store_value QOps (testText str_A Regular Left))
    as (_ & _ & _ & _ & _ & _ & _ & _ & _ & _ & _ & _ & H & _).
  exact (H (1 : Q) eq_refl).
Defined.

Lemma setters_never_validate_witness :
  m_geometryNeedUpdate (testText str_A Regular Left) = true /\
  m_geometryNeedUpdate (setFillColor red (testText str_A Regular Left)) = true.
Proof.
  split; [reflexivity|].
  destruct (@setters_never_validate QOps (testText str_A Regular Left))
    as (_ & _ & _ & _ & _ & H & _).
  exact (proj1 (H red) eq_refl).
Defined.

Lemma rebuild_is_function_of_style_witness :
  let t := testText str_A_nl_B Underlined Center in
  let t' := setFillColor white (rebuildGeometry monoFontRepacked t) in
  styleOf t = styleOf t' /\
  geometryOf (rebuildGeometry monoFont t) = geometryOf (rebuildGeometry monoFont t').
Proof.
  cbv zeta. split; [reflexivity|].
  exact (proj1 (@rebuild_is_function_of_style QOps monoFont
                  (testText str_A_nl_B Underlined Center)
                  (setFillColor white
                     (rebuildGeometry monoFontRepacked (testText str_A_nl_B Underlined Center)))
                  eq_refl)).
Defined.

Lemma rebuild_empty_string_witness :
  m_string (outlinedText [] Underlined Center) = [] /\
  geometryOf (rebuildGeometry monoFont (outlinedText [] Underlined Center)) =
    ([], [], mkRect (0 : Q) (0 : Q) (0 : Q) (0 : Q)).
Proof.
  split; [reflexivity|].
  exact (proj1 (@rebuild_empty_string QOps monoFont (outlinedText [] Underlined Center)
                  eq_refl)).
Defined.

Lemma outline_mirrors_fill_witness :
  hasOutline (outlinedText str_A_nl_B Underlined Left) = true /\
  hasOutline (testText str_A_nl_B Underlined Left) = false /\
  length (m_outlineVertices (rebuildGeometry monoFont (outlinedText str_A_nl_B Underlined Left))) =
    length (m_vertices (rebuildGeometry monoFont (outlinedText str_A_nl_B Underlined Left))) /\
  m_outlineVertices (rebuildGeometry monoFont (testText str_A_nl_B Underlined Left)) = [].
Proof.
  split; [reflexivity|]. split; [reflexivity|]. split.
  - exact (proj1 (proj2 (@outline_mirrors_fill QOps monoFont
                           (outlinedText str_A_nl_B Underlined Left)) eq_refl)).
  - exact (proj1 (proj1 (@outline_mirrors_fill QOps monoFont
                           (testText str_A_nl_B Underlined Left)) eq_refl)).
Defined.

Lemma lineOffsets_one_per_line_witness :
  m_string (testText [] Regular Right) = [] /\
  m_lineOffsets (updateLineOffsets monoFont (testText [] Regular Right)) =
    [alignOffset Right (0 : Q) (0 : Q)].
Proof.
  split; [reflexivity|].
  exact (proj1 (proj2 (@lineOffsets_one_per_line QOps monoFont (testText [] Regular Right)))
           eq_refl).
Defined.

Lemma lineOffsets_left_all_zero_witness :
  m_lineAlignment (testText str_A_nl_BBB Regular Left) = Left /\
  m_lineOffsets (updateLineOffsets monoFont (testText str_A_nl_BBB Regular Left)) =
    repeat (0 : Q) 2.
Proof.
  split; [reflexivity|].
  exact (@lineOffsets_left_all_zero QOps monoFont (testText str_A_nl_BBB Regular Left) eq_refl).
Defined.

Lemma geometry_line_index_in_range_witness :
  let t := testText str_AAA_nl_B Regular Right in
  m_string t = [cp_A; cp_A; cp_A; cp_newline] ++ [cp_B] /\
  (g_line (geometryWalk monoFont (updateLineOffsets monoFont t) [cp_A; cp_A; cp_A; cp_newline])
   < length (m_lineOffsets (updateLineOffsets monoFont t)))%nat.
Proof.
  cbv zeta. split; [reflexivity|].
  exact (proj2 (@geometry_line_index_in_range QOps monoFont
                  (testText str_AAA_nl_B Regular Right)
                  [cp_A; cp_A; cp_A; cp_newline] [cp_B] eq_refl)).
Defined.

Lemma findCharacterPos_matches_geometry_left_witness :
  let t := testText str_AAA_nl_B Regular Left in
  m_lineAlignment t = Left /\
  @fround QOps f0 = f0 /\
  (4 <= length (m_string t))%nat /\
  Forall (fun c => c <> cp_return) (firstn 4 (m_string t)) /\
  option_map (@vx _) (findCharacterLocalPos monoFont t 4) =
    Some (g_x (geometryWalk monoFont (updateLineOffsets monoFont (beginRebuild monoFont t))
                 (firstn 4 (m_string t)))).
Proof.
  cbv zeta.
  assert (Hcr : Forall (fun c => c <> cp_return)
                  (firstn 4 (m_string (testText str_AAA_nl_B Regular Left)))).
  { repeat (constructor; [vm_compute; lia|]). constructor. }
  assert (Hle : (4 <= length (m_string (testText str_AAA_nl_B Regular Left)))%nat)
    by (vm_compute; lia).
  split; [reflexivity|]. split; [reflexivity|]. split; [exact Hle|]. split; [exact Hcr|].
  exact (@findCharacterPos_matches_geometry_left QOps monoFont
           (testText str_AAA_nl_B Regular Left) 4%nat eq_refl eq_refl Hle Hcr).
Defined.

Lemma findCharacterPos_end_is_last_width_witness :
  let t := testText str_A_nl_BBB Regular Left in
  m_lineAlignment t = Left /\
  @fround QOps f0 = f0 /\
  option_map (@vx _) (findCharacterLocalPos monoFont t (length (m_string t))) =
    Some (last (lineWidths monoFont t) f0).
Proof.
  cbv zeta. split; [reflexivity|]. split; [reflexivity|].
  exact (@findCharacterPos_end_is_last_width QOps monoFont
           (testText str_A_nl_BBB Regular Left) eq_refl eq_refl).
Defined.

Lemma findCharacterPos_ignores_cache_witness :
  let t := testText str_A_nl_B Regular Center in
  let t' := set_dirty (rebuildGeometry monoFontRepacked t) in
  styleOf t' = styleOf t /\
  findCharacterPos monoFont (fun p => p) t' 2 = findCharacterPos monoFont (fun p => p) t 2.
Proof.
  cbv zeta. split; [reflexivity|].
  exact (proj1 (@findCharacterPos_ignores_cache QOps monoFont (fun p => p)
                  (testText str_A_nl_B Regular Center) 2%nat)
           (set_dirty (rebuildGeometry monoFontRepacked (testText str_A_nl_B Regular Center)))
           eq_refl).
Defined.

End ExtraRuns.

(** * The outline thickness and the bounds *)

Section OutlineFacts.
Context {FO : FloatOps}.
Implicit Types (font : Font) (t : Text) (st : GeomState) (c : N).

Lemma decorate_fst_ext t t' (on : bool) (l x y o th : float)
  (vo vo' : list Vertex * list Vertex) :
  m_fillColor t' = m_fillColor t -> fst vo' = fst vo ->
  fst (decorate t' on l x y o th vo') = fst (decorate t on l x y o th vo).
Proof. unfold decorate. intros Hc H. destruct on; cbn [fst]; rewrite H, ?Hc; reflexivity. Qed.

Lemma decorate_fst_thickness (v : float) t (on : bool) (l x y o th : float)
  (vo vo' : list Vertex * list Vertex) :
  fst vo' = fst vo ->
  fst (decorate (withThickness v t) on l x y o th vo') = fst (decorate t on l x y o th vo).
Proof. apply decorate_fst_ext. reflexivity. Qed.

Lemma geometryStep_core (v : float) font t st st' c :
  coreOf st' = coreOf st ->
  coreOf (geometryStep font (withThickness v t) st' c) = coreOf (geometryStep font t st c).
Proof.
  destruct st as [x y a b d e p n h vs os], st' as [x' y' a' b' d' e' p' n' h' vs' os'].
  unfold coreOf. cbn. intros H. injection H as -> -> -> -> -> -> -> -> -> ->.
  unfold geometryStep.
  destruct (c =? cp_return)%N; [reflexivity|].
  change (getSpacing font (withThickness v t)) with (getSpacing font t).
  change (isBold (withThickness v t)) with (isBold t).
  change (isUnderlined (withThickness v t)) with (isUnderlined t).
  change (isStrikeThrough (withThickness v t)) with (isStrikeThrough t).
  change (italicShear (withThickness v t)) with (italicShear t).
  change (underlineOffset font (withThickness v t)) with (underlineOffset font t).
  change (underlineThickness font (withThickness v t)) with (underlineThickness font t).
  change (strikeThroughOffset font (withThickness v t)) with (strikeThroughOffset font t).
  cbn [g_x g_y g_minX g_minY g_maxX g_maxY g_prevChar g_line g_horizontalOffset
       g_vertices g_outlineVertices withThickness m_characterSize m_lineOffsets m_fillColor].
  match goal with
  | |- context [decorate t (isStrikeThrough t && ?bk) ?l ?xx ?yy ?so ?th
                  (decorate t (isUnderlined t && ?bk) ?l ?xx ?yy ?uo ?th ?vo)] =>
      match goal with
      | |- context [decorate (withThickness v t) (isStrikeThrough t && bk) l xx yy so th
                      (decorate (withThickness v t) (isUnderlined t && bk) l xx yy uo th ?vo')] =>
          assert (Hd : fst (decorate (withThickness v t) (isStrikeThrough t && bk) l xx yy so th
                              (decorate (withThickness v t) (isUnderlined t && bk) l xx yy uo th vo'))
                       = fst (decorate t (isStrikeThrough t && bk) l xx yy so th
                                (decorate t (isUnderlined t && bk) l xx yy uo th vo)))
            by (apply decorate_fst_thickness, decorate_fst_thickness; reflexivity)
      end
  end.
  destruct ((c =? cp_space) || (c =? cp_newline) || (c =? cp_tab))%N.
  - destruct (c =? cp_space)%N; [|destruct (c =? cp_tab)%N];
      cbn [g_x g_y g_minX g_minY g_maxX g_maxY g_prevChar g_line g_horizontalOffset
           g_vertices]; rewrite Hd; reflexivity.
  - cbn [g_x g_y g_minX g_minY g_maxX g_maxY g_prevChar g_line g_horizontalOffset g_vertices].
    rewrite Hd. reflexivity.
Qed.

Lemma geometryWalk_core (v : float) font t (s : list N) : forall st st',
  coreOf st' = coreOf st ->
  coreOf (fold_left (geometryStep font (withThickness v t)) s st') =
  coreOf (fold_left (geometryStep font t) s st).
Proof.
  induction s as [|c s IH]; intros st st' H; cbn [fold_left]; [exact H|].
  apply IH. apply geometryStep_core. exact H.
Qed.

Lemma lineOffsets_withThickness (v : float) font t :
  m_lineOffsets (updateLineOffsets font (beginRebuild font (withThickness v t))) =
  m_lineOffsets (updateLineOffsets font (beginRebuild font t)).
Proof.
  unfold updateLineOffsets, lineWidths. cbn [m_lineOffsets set_lineOffsets].
  replace (lineWalk font (beginRebuild font (withThickness v t)))
    with (lineWalk font (beginRebuild font t)); [reflexivity|].
  unfold lineWalk. apply fold_left_ext_all. reflexivity.
Qed.

(** The state the loop of a rebuild ends in. *)
Lemma rebuild_walk_core (v : float) font t :
  let t2 := updateLineOffsets font (beginRebuild font t) in
  let t2' := updateLineOffsets font (beginRebuild font (withThickness v t)) in
  coreOf (geometryWalk font t2' (m_string t)) = coreOf (geometryWalk font t2 (m_string t)).
Proof.
  intros t2 t2'. unfold geometryWalk.
  assert (Hext : forall st ch,
            geometryStep font t2' st ch = geometryStep font (withThickness v t2) st ch).
  { intros st ch. apply geometryStep_ext; [reflexivity|].
    subst t2 t2'. apply lineOffsets_withThickness. }
  rewrite (fold_left_ext_all _ _ _ _ Hext).
  apply geometryWalk_core.
  unfold coreOf, geomInit. cbn [g_x g_y g_minX g_minY g_maxX g_maxY g_prevChar g_line
                                g_horizontalOffset g_vertices].
  replace (m_lineOffsets t2') with (m_lineOffsets t2)
    by (subst t2 t2'; symmetry; apply lineOffsets_withThickness).
  reflexivity.
Qed.

Lemma rebuildGeometry_bounds font t :
  m_string t <> [] ->
  let stF := geometryWalk font (updateLineOffsets font (beginRebuild font t)) (m_string t) in
  let outline := fabs (fceil (m_outlineThickness t)) in
  let minX := if hasOutline t then fsub (g_minX stF) outline else g_minX stF in
  let maxX := if hasOutline t then fadd (g_maxX stF) outline else g_maxX stF in
  let minY := if hasOutline t then fsub (g_minY stF) outline else g_minY stF in
  let maxY := if hasOutline t then fadd (g_maxY stF) outline else g_maxY stF in
  m_bounds (rebuildGeometry font t) = mkRect minX minY (fsub maxX minX) (fsub maxY minY).
Proof.
  intros Hne. cbv zeta.
  pose proof (rebuildGeometry_geometry font t) as Hg.
  apply (f_equal snd) in Hg. unfold geometryOf in Hg. cbn [snd] in Hg. rewrite Hg.
  destruct (m_string t) as [|c s]; [congruence|]. reflexivity.
Qed.

(** X20.  The outline thickness has no part in the fill array: a rebuild
    with any other outline thickness gives the same fill vertices. *)
Theorem fill_vertices_ignore_outline font t (v : float) :
  m_vertices (rebuildGeometry font (withThickness v t)) = m_vertices (rebuildGeometry font t).
Proof.
  pose proof (rebuildGeometry_geometry font t) as Hg.
  pose proof (rebuildGeometry_geometry font (withThickness v t)) as Hg'.
  unfold geometryOf in Hg, Hg'.
  change (m_string (withThickness v t)) with (m_string t) in Hg'.
  destruct (m_string t) as [|c s] eqn:Es.
  - injection Hg as -> _ _. injection Hg' as -> _ _. reflexivity.
  - cbv zeta in Hg, Hg'.
    pose proof (rebuild_walk_core v font t) as Hc. cbv zeta in Hc. rewrite Es in Hc.
    set (stF := geometryWalk font (updateLineOffsets font (beginRebuild font t)) (c :: s)) in *.
    set (stF' := geometryWalk font
                   (updateLineOffsets font (beginRebuild font (withThickness v t))) (c :: s)) in *.
    unfold coreOf in Hc. injection Hc as Hx Hy _ _ _ _ _ _ Hh Hvs.
    unfold geometryFinish in Hg, Hg'.
    injection Hg as Hmv _ _. injection Hg' as Hmv' _ _.
    rewrite Hmv, Hmv'. rewrite Hx, Hy, Hh.
    apply decorate_fst_ext; [reflexivity|]. apply decorate_fst_ext; [reflexivity|].
    cbn [fst]. exact Hvs.
Qed.

(** X21.  For a non-empty string with an outline, the bounds come from the
    four extrema the loop reaches for the same text without outline, each
    moved outwards by [|ceil(outlineThickness)|]: with [minX], [minY],
    [maxX], [maxY] these extrema, the bounds without outline are
    [(minX, minY, maxX - minX, maxY - minY)] and the bounds with outline are
    [(minX - o, minY - o, (maxX + o) - (minX - o), (maxY + o) - (minY - o))],
    in the float operations of the code. *)
Theorem outline_pads_bounds font t :
  hasOutline t = true -> m_string t <> [] ->
  forall zero : float, feqb zero f0 = true ->
  let o := fabs (fceil (m_outlineThickness t)) in
  let t0 := withThickness zero t in
  let st0 := geometryWalk font (updateLineOffsets font (beginRebuild font t0)) (m_string t) in
  m_bounds (rebuildGeometry font t0) =
    mkRect (g_minX st0) (g_minY st0)
           (fsub (g_maxX st0) (g_minX st0)) (fsub (g_maxY st0) (g_minY st0)) /\
  m_bounds (rebuildGeometry font t) =
    mkRect (fsub (g_minX st0) o) (fsub (g_minY st0) o)
           (fsub (fadd (g_maxX st0) o) (fsub (g_minX st0) o))
           (fsub (fadd (g_maxY st0) o) (fsub (g_minY st0) o)) /\
  r_left (m_bounds (rebuildGeometry font t)) =
    fsub (r_left (m_bounds (rebuildGeometry font t0))) o /\
  r_top (m_bounds (rebuildGeometry font t)) =
    fsub (r_top (m_bounds (rebuildGeometry font t0))) o.
Proof.
  intros Ho Hne zero Hz o t0 st0.
  assert (Ho0 : hasOutline t0 = false).
  { unfold hasOutline, t0. cbn [withThickness m_outlineThickness]. rewrite Hz. reflexivity. }
  assert (Hb0 : m_bounds (rebuildGeometry font t0) =
                mkRect (g_minX st0) (g_minY st0)
                  (fsub (g_maxX st0) (g_minX st0)) (fsub (g_maxY st0) (g_minY st0))).
  { rewrite (rebuildGeometry_bounds font t0 Hne). cbv zeta. rewrite Ho0. reflexivity. }
  assert (Hb : m_bounds (rebuildGeometry font t) =
               mkRect (fsub (g_minX st0) o) (fsub (g_minY st0) o)
                 (fsub (fadd (g_maxX st0) o) (fsub (g_minX st0) o))
                 (fsub (fadd (g_maxY st0) o) (fsub (g_minY st0) o))).
  { rewrite (rebuildGeometry_bounds font t Hne). cbv zeta. rewrite Ho. fold o.
    pose proof (rebuild_walk_core zero font t) as Hc. cbv zeta in Hc.
    fold t0 in Hc. fold st0 in Hc.
    set (stF := geometryWalk font (updateLineOffsets font (beginRebuild font t)) (m_string t))
      in *.
    assert (HminX : g_minX st0 = g_minX stF) by (unfold coreOf in Hc; congruence).
    assert (HminY : g_minY st0 = g_minY stF) by (unfold coreOf in Hc; congruence).
    assert (HmaxX : g_maxX st0 = g_maxX stF) by (unfold coreOf in Hc; congruence).
    assert (HmaxY : g_maxY st0 = g_maxY stF) by (unfold coreOf in Hc; congruence).
    rewrite HminX, HminY, HmaxX, HmaxY. reflexivity. }
  split; [exact Hb0|]. split; [exact Hb|].
  rewrite Hb, Hb0. split; reflexivity.
Qed.

End OutlineFacts.

Section OutlineRuns.
Local Open Scope Q_scope.

Lemma outline_pads_bounds_witness :
  let t := outlinedText str_A_nl_B Regular Left in
  hasOutline t = true /\ m_string t <> [] /\ @feqb QOps 0 f0 = true /\
  m_bounds (rebuildGeometry monoFont (@withThickness QOps 0 t)) =
    mkRect (0 : Q) (20 : Q) (8 : Q) (34 : Q) /\
  m_bounds (rebuildGeometry monoFont t) = mkRect (-2 : Q) (18 : Q) (12 : Q) (38 : Q) /\
  r_left (m_bounds (rebuildGeometry monoFont t)) =
    fsub (r_left (m_bounds (rebuildGeometry monoFont (@withThickness QOps 0 t))))
         (fabs (fceil (m_outlineThickness t))).
Proof.
  cbv zeta.
  assert (Hne : m_string (outlinedText str_A_nl_B Regular Left) <> [])
    by (vm_compute; intros H; discriminate H).
  split; [reflexivity|]. split; [exact Hne|]. split; [reflexivity|].
  split; [reflexivity|]. split; [reflexivity|].
  exact (proj1 (proj2 (proj2 (@outline_pads_bounds QOps monoFont
                                (outlinedText str_A_nl_B Regular Left) eq_refl Hne
                                (0 : Q) eq_refl)))).
Defined.

End OutlineRuns.
